(** * scrape.py: extraction of faculty information from profile pages

    A shallow embedding of [scrape.py] and the properties of its
    extractors, of the harvesting loop and of the command line.

    Conventions of the model.
    - Python [str] values are [string]s; a character is a code point
      below 256, and the character classes (white space, decimal digits,
      letter case) are the ones Python uses on that range.
    - A parsed page (a BeautifulSoup object) is a tree of tags and text
      nodes.  Comments, declarations and the special strings of script
      and style elements are not part of the model.
    - Regular expressions are abstract syntax run by a backtracking
      matcher with the priorities of Python's [re] module.
    - The network, the file system and the standard output are an explicit
      world threaded through the effectful functions, and a Python
      exception that is not caught is a result of its own. *)

From Stdlib Require Import String Ascii List Bool Arith Lia.
Import ListNotations.
Local Open Scope list_scope.
Local Open Scope string_scope.
Local Open Scope nat_scope.


(* ================================================================= *)
(** ** Python strings *)

Module PyStr.

Definition newline : ascii := ascii_of_nat 10.

(** [str.isspace] on one character, as used by [str.strip()],
    [str.split()] and the regular-expression class [\s]:
    TAB..CR, FS..US, SPACE, NEL and NBSP. *)
Definition is_space (c : ascii) : bool :=
  let n := nat_of_ascii c in
  ((9 <=? n) && (n <=? 13)) || ((28 <=? n) && (n <=? 32))
  || (n =? 133) || (n =? 160).

(** The class [\d]: the decimal digits below 256 are ['0'..'9']. *)
Definition is_digit (c : ascii) : bool :=
  let n := nat_of_ascii c in (48 <=? n) && (n <=? 57).

(** Case folding of the ASCII letters. *)
Definition lower_char (c : ascii) : ascii :=
  let n := nat_of_ascii c in
  if (65 <=? n) && (n <=? 90) then ascii_of_nat (n + 32) else c.

Fixpoint lower (s : string) : string :=
  match s with
  | "" => ""
  | String c s' => String (lower_char c) (lower s')
  end.

Fixpoint all (p : ascii -> bool) (s : string) : bool :=
  match s with
  | "" => true
  | String c s' => p c && all p s'
  end.

Definition is_empty (s : string) : bool :=
  match s with "" => true | _ => false end.

(** [c in s] for a one-character [c]. *)
Fixpoint contains_char (c : ascii) (s : string) : bool :=
  match s with
  | "" => false
  | String d s' => Ascii.eqb d c || contains_char c s'
  end.

(** [s.lstrip(chars)], [s.rstrip(chars)] and [s.strip(chars)], the set
    [chars] given as a predicate. *)
Fixpoint lstrip_by (p : ascii -> bool) (s : string) : string :=
  match s with
  | "" => ""
  | String c s' => if p c then lstrip_by p s' else s
  end.

Fixpoint rstrip_by (p : ascii -> bool) (s : string) : string :=
  match s with
  | "" => ""
  | String c s' =>
      match rstrip_by p s' with
      | "" => if p c then "" else String c ""
      | t => String c t
      end
  end.

Definition strip_by (p : ascii -> bool) (s : string) : string :=
  rstrip_by p (lstrip_by p s).

(** [s.strip()] *)
Definition strip : string -> string := strip_by is_space.

(** [s.strip(",")] *)
Definition strip_commas : string -> string := strip_by (Ascii.eqb ",").

(** [s.replace(a, b)] for one-character [a] and [b]. *)
Fixpoint replace_char (a b : ascii) (s : string) : string :=
  match s with
  | "" => ""
  | String c s' =>
      String (if Ascii.eqb c a then b else c) (replace_char a b s')
  end.

(** [s.split(sep)] for a one-character [sep]: never an empty list. *)
Fixpoint split_on (sep : ascii) (s : string) : list string :=
  match s with
  | "" => [""]
  | String c s' =>
      if Ascii.eqb c sep then "" :: split_on sep s'
      else match split_on sep s' with
           | t :: ts => String c t :: ts
           | [] => [String c ""]
           end
  end.

(** [s.split()]: the maximal runs of characters that are not white
    space. *)
Fixpoint split_ws (s : string) : list string :=
  match s with
  | "" => []
  | String c s' =>
      if is_space c then split_ws s'
      else match s' with
           | "" => [String c ""]
           | String d _ =>
               if is_space d then String c "" :: split_ws s'
               else match split_ws s' with
                    | t :: ts => String c t :: ts
                    | [] => [String c ""]
                    end
           end
  end.

End PyStr.
Import PyStr.

(* ================================================================= *)
(** ** Parsed documents *)

Module Soup.

(** An element of the tree: a text node ([NavigableString]) or a tag
    with its attributes and contents. *)
#[warnings="-register-all"] Inductive node : Type :=
| Text (s : string)
| Tag (name : string) (attrs : list (string * string))
      (contents : list node).

(** The BeautifulSoup object, given by its top-level contents. *)
Definition document : Type := list node.

(** [.descendants]: everything below a node, in document order. *)
Fixpoint descendants (n : node) : list node :=
  match n with
  | Text _ => []
  | Tag _ _ cs =>
      (fix walk (l : list node) : list node :=
         match l with
         | [] => []
         | c :: l' => c :: (descendants c ++ walk l')%list
         end) cs
  end.

Fixpoint walk (l : list node) : list node :=
  match l with
  | [] => []
  | c :: l' => c :: (descendants c ++ walk l')%list
  end.

(** All the elements of a document in document order. *)
Definition elements (doc : document) : list node := walk doc.

(** [.get_text()]: a text node is its own text, a tag has the
    concatenation of the text nodes below it. *)
Fixpoint get_text (n : node) : string :=
  match n with
  | Text s => s
  | Tag _ _ cs =>
      (fix texts (l : list node) : string :=
         match l with
         | [] => ""
         | c :: l' => get_text c ++ texts l'
         end) cs
  end.

(** [.string]: the only text below a tag whose contents, at each
    level, are a single node. *)
Fixpoint tag_string (n : node) : option string :=
  match n with
  | Text s => Some s
  | Tag _ _ [c] => tag_string c
  | Tag _ _ _ => None
  end.

Definition is_tag (n : node) : bool :=
  match n with Tag _ _ _ => true | Text _ => false end.

Definition tag_named (name : string) (n : node) : bool :=
  match n with
  | Tag nm _ _ => String.eqb nm name
  | Text _ => false
  end.

Definition tag_name (n : node) : string :=
  match n with Tag nm _ _ => nm | Text _ => "" end.

(** [tag.get(key, None)] *)
Fixpoint lookup (key : string) (attrs : list (string * string))
  : option string :=
  match attrs with
  | [] => None
  | (k, v) :: rest => if String.eqb k key then Some v else lookup key rest
  end.

Definition get_attr (key : string) (n : node) : option string :=
  match n with
  | Tag _ attrs _ => lookup key attrs
  | Text _ => None
  end.

(** [soup(name)], that is [soup.find_all(name)]. *)
Definition find_all (name : string) (doc : document) : list node :=
  filter (tag_named name) (elements doc).

(** An element found by a search remembers its place: it comes with
    the elements that follow it in document order ([.next_elements]). *)
Fixpoint find_from (p : node -> bool) (l : list node)
  : option (node * list node) :=
  match l with
  | [] => None
  | x :: rest => if p x then Some (x, rest) else find_from p rest
  end.

(** [element.find_next()] without arguments: the first tag among the
    elements that follow; text nodes never match an empty filter. *)
Definition find_next (following : list node) : option (node * list node) :=
  find_from is_tag following.

End Soup.
Import Soup.

(* ================================================================= *)
(** ** Regular expressions *)

Module Re.

(** The fragment of the pattern language that the program uses.  A
    class is a predicate on characters; [Plus] is the greedy [+] on a
    class; [Opt] is the greedy [?]; [Bol] and [Eol] are [^] and [$]
    without the MULTILINE flag. *)
Inductive regex : Type :=
| Eps
| Chr (p : ascii -> bool)
| Cat (r1 r2 : regex)
| Alt (r1 r2 : regex)
| Opt (r : regex)
| Plus (p : ascii -> bool)
| Bol
| Eol.

(** [$] holds at the end of the subject and just before a newline that
    ends it. *)
Definition at_eol (s : string) : bool :=
  match s with
  | "" => true
  | String c "" => Ascii.eqb c newline
  | _ => false
  end.

(** One or more characters of a class, the longest run first. *)
Fixpoint plus_match (p : ascii -> bool) (s : string)
  (k : string -> option string) : option string :=
  match s with
  | "" => None
  | String c s' =>
      if p c then
        match plus_match p s' k with
        | Some rest => Some rest
        | None => k s'
        end
      else None
  end.

(** The backtracking matcher, in continuation-passing style.  [bol]
    tells whether the position is the beginning of the subject; the
    continuation receives the position after the match and answers with
    what is left of the subject after the whole pattern. *)
Fixpoint rmatch (r : regex) (bol : bool) (s : string)
  (k : bool -> string -> option string) : option string :=
  match r with
  | Eps => k bol s
  | Chr p =>
      match s with
      | String c s' => if p c then k false s' else None
      | "" => None
      end
  | Cat r1 r2 => rmatch r1 bol s (fun b s' => rmatch r2 b s' k)
  | Alt r1 r2 =>
      match rmatch r1 bol s k with
      | Some rest => Some rest
      | None => rmatch r2 bol s k
      end
  | Opt r1 =>
      match rmatch r1 bol s k with
      | Some rest => Some rest
      | None => k bol s
      end
  | Plus p => plus_match p s (k false)
  | Bol => if bol then k true s else None
  | Eol => if at_eol s then k bol s else None
  end.

(** The match of [r] that begins where [s] begins, if any: its text. *)
Definition match_here (r : regex) (bol : bool) (s : string)
  : option string :=
  match rmatch r bol s (fun _ rest => Some rest) with
  | Some rest => Some (substring 0 (String.length s - String.length rest) s)
  | None => None
  end.

Fixpoint search_from (r : regex) (bol : bool) (s : string)
  : option string :=
  match match_here r bol s with
  | Some m => Some m
  | None =>
      match s with
      | "" => None
      | String _ s' => search_from r false s'
      end
  end.

(** [re.search(pattern, s)]: [group(0)] of the leftmost match. *)
Definition search (r : regex) (s : string) : option string :=
  search_from r true s.

(** Building blocks of patterns. *)
Definition lit (c : ascii) : regex := Chr (Ascii.eqb c).

(** A literal character under IGNORECASE. *)
Definition lit_i (c : ascii) : regex :=
  Chr (fun d => Ascii.eqb (lower_char d) (lower_char c)).

Fixpoint word_i (w : string) : regex :=
  match w with
  | "" => Eps
  | String c w' => Cat (lit_i c) (word_i w')
  end.

(** [r{n}] *)
Fixpoint times (n : nat) (r : regex) : regex :=
  match n with
  | 0 => Eps
  | S n' => Cat r (times n' r)
  end.

(** The class [[a-b]]. *)
Definition range (a b : ascii) : ascii -> bool :=
  fun c => (nat_of_ascii a <=? nat_of_ascii c)
           && (nat_of_ascii c <=? nat_of_ascii b).

Definition non_space : ascii -> bool := fun c => negb (is_space c).

(** What a pattern denotes: [matches r bol m rest] when [r] can match
    the text [m], [bol] telling whether [m] begins the subject and
    [rest] being what follows [m] in the subject. *)
Inductive matches : regex -> bool -> string -> string -> Prop :=
| M_Eps : forall bol rest, matches Eps bol "" rest
| M_Chr : forall (p : ascii -> bool) c bol rest,
    p c = true -> matches (Chr p) bol (String c "") rest
| M_Cat : forall r1 r2 bol m1 m2 rest,
    matches r1 bol m1 (m2 ++ rest) ->
    matches r2 (bol && is_empty m1) m2 rest ->
    matches (Cat r1 r2) bol (m1 ++ m2) rest
| M_AltL : forall r1 r2 bol m rest,
    matches r1 bol m rest -> matches (Alt r1 r2) bol m rest
| M_AltR : forall r1 r2 bol m rest,
    matches r2 bol m rest -> matches (Alt r1 r2) bol m rest
| M_OptSome : forall r bol m rest,
    matches r bol m rest -> matches (Opt r) bol m rest
| M_OptNone : forall r bol rest, matches (Opt r) bol "" rest
| M_Plus : forall (p : ascii -> bool) bol m rest,
    m <> "" -> all p m = true -> matches (Plus p) bol m rest
| M_Bol : forall rest, matches Bol true "" rest
| M_Eol : forall bol rest, at_eol rest = true -> matches Eol bol "" rest.

End Re.
Import Re.

(* ================================================================= *)
(** ** Exceptions, the world and the monad of effects *)

Module Eff.

(** The exceptions of Python that the program can let escape. *)
Inductive exn : Type :=
| TypeError
| AttributeError
| ValueError
| IndexError
| OtherException (msg : string).

Inductive result (A : Type) : Type :=
| Ret (a : A)
| Raise (e : exn).
Arguments Ret {A} a.
Arguments Raise {A} e.

(** What a run can change: the lines printed, the addresses requested
    from the network, and the files, each one the sequence of the
    strings written to it. *)
Record world : Type := mkWorld {
  stdout : list string;
  traffic : list string;
  files : list (string * list string)
}.

Definition M (A : Type) : Type := world -> result A * world.

Definition ret {A} (a : A) : M A := fun w => (Ret a, w).

Definition raise {A} (e : exn) : M A := fun w => (Raise e, w).

Definition bind {A B} (m : M A) (f : A -> M B) : M B :=
  fun w =>
    match m w with
    | (Ret a, w') => f a w'
    | (Raise e, w') => (Raise e, w')
    end.

(** A computation without effects that may raise. *)
Definition lift {A} (r : result A) : M A := fun w => (r, w).

(** [print(msg)] *)
Definition print (msg : string) : M unit :=
  fun w => (Ret tt, mkWorld (stdout w ++ [msg])%list (traffic w) (files w)).

(** A request sent to [url]. *)
Definition request (url : string) : M unit :=
  fun w => (Ret tt, mkWorld (stdout w) (traffic w ++ [url])%list (files w)).

Fixpoint file_lookup (name : string) (fs : list (string * list string))
  : option (list string) :=
  match fs with
  | [] => None
  | (n, c) :: rest => if String.eqb n name then Some c else file_lookup name rest
  end.

Fixpoint file_update (name : string) (f : list string -> list string)
  (fs : list (string * list string)) : list (string * list string) :=
  match fs with
  | [] => []
  | (n, c) :: rest =>
      if String.eqb n name then (n, f c) :: rest
      else (n, c) :: file_update name f rest
  end.

Fixpoint file_remove (name : string) (fs : list (string * list string))
  : list (string * list string) :=
  match fs with
  | [] => []
  | (n, c) :: rest =>
      if String.eqb n name then file_remove name rest
      else (n, c) :: file_remove name rest
  end.

(** [open(name, 'w')]: the file exists and is empty afterwards. *)
Definition open_w (name : string) : M unit :=
  fun w => (Ret tt,
            mkWorld (stdout w) (traffic w)
                    ((name, []) :: file_remove name (files w))).

(** [output_file.write(text)] *)
Definition write (name text : string) : M unit :=
  fun w => (Ret tt,
            mkWorld (stdout w) (traffic w)
                    (file_update name (fun c => c ++ [text])%list (files w))).

(** A [for] loop: the body runs on each item in turn and an exception
    ends the loop. *)
Fixpoint for_each {A} (items : list A) (body : A -> M unit) : M unit :=
  match items with
  | [] => ret tt
  | x :: rest => bind (body x) (fun _ => for_each rest body)
  end.

Definition empty_world : world := mkWorld [] [] [].

End Eff.
Import Eff.

Notation "x <- m ;; k" := (bind m (fun x => k))
  (at level 61, m at next level, right associativity).
Notation "m ;;; k" := (bind m (fun _ => k))
  (at level 61, right associativity).

(* ================================================================= *)
(** ** The standard library and the outside of the program *)

Module Env.

Inductive fetch_outcome : Type :=
| Fetched (soup : document)
| URLError (msg : string)
| OtherError (msg : string).

Inductive robots_outcome : Type :=
| RobotsRead (can_fetch : string -> string -> bool)
| RobotsURLError (msg : string)
| RobotsRaises (e : exn).

(** The parts of a run that the program does not decide. *)
Record environment : Type := mkEnv {
  (** [urllib.request.urlopen(url)], reading the response and parsing
      it with [html.parser] *)
  urlopen : string -> fetch_outcome;
  (** [urllib.parse.urljoin(base, url)] *)
  urljoin : string -> string -> string;
  (** [urllib.parse.urlparse(url)]: the scheme and the host name *)
  urlparse : string -> string * option string;
  (** [RobotFileParser.read()] on the address of a robots.txt, giving
      [can_fetch(useragent, url)] *)
  robots : string -> robots_outcome;
  (** [urllib.request.URLopener.version] *)
  user_agent : string
}.

(** [str.rfind(c)] *)
Fixpoint rfind (c : ascii) (s : string) : option nat :=
  match s with
  | "" => None
  | String d s' =>
      match rfind c s' with
      | Some i => Some (S i)
      | None => if Ascii.eqb d c then Some 0 else None
      end
  end.

(** [s[i:]] *)
Fixpoint drop (i : nat) (s : string) : string :=
  match i, s with
  | 0, _ => s
  | S i', String _ s' => drop i' s'
  | S _, "" => ""
  end.

(** [os.path.splitext(p)[1]] of [posixpath]: the extension begins at the
    last dot of the last component, unless only dots precede it there. *)
Definition extension (p : string) : string :=
  let filenameIndex :=
    match rfind "/" p with Some i => S i | None => 0 end in
  match rfind "." p with
  | Some dotIndex =>
      if (filenameIndex <=? dotIndex)
         && existsb (fun i => match get i p with
                              | Some c => negb (Ascii.eqb c ".")
                              | None => false
                              end)
                    (seq filenameIndex (dotIndex - filenameIndex))
      then drop dotIndex p
      else ""
  | None => ""
  end.

End Env.
Import Env.

(* ================================================================= *)
(** ** scrape.py *)

Module Scrape.

Definition nl : string := String newline "".

(** [read_url(url)]: the soup, or [None] after a message when opening
    the address fails in any way. *)
Definition read_url (env : environment) (url : string)
  : M (option document) :=
  request url ;;;
  match urlopen env url with
  | Fetched soup => ret (Some soup)
  | URLError msg =>
      print ("Error opening url: " ++ url ++ nl ++ msg) ;;; ret None
  | OtherError msg =>
      print ("Other error with url: " ++ url ++ nl ++ msg) ;;; ret None
  end.

(** [re.compile(r'/people/', re.IGNORECASE)] *)
Definition people_pattern : regex := word_i "/people/".

Definition href_matches (r : regex) (n : node) : bool :=
  match get_attr "href" n with
  | Some v => match search r v with Some _ => true | None => false end
  | None => false
  end.

(** [get_people_links(url)] *)
Definition get_people_links (env : environment) (url : string)
  : M (option (list string)) :=
  soup <- read_url env url ;;
  match soup with
  | Some soup =>
      let base := "https://sjsu.edu/" in
      let links :=
        map (fun anchor =>
               urljoin env base
                 (match get_attr "href" anchor with Some v => v | None => "" end))
            (filter (fun n => tag_named "a" n && href_matches people_pattern n)
                    (elements soup)) in
      ret (Some links)
  | None => ret None
  end.

(** What [extract_name] returns: a pair, [None] when the function ends
    without a [return], or the empty string. *)
Inductive name_result : Type :=
| NamePair (last_name first_name : string)
| NameNone
| NameEmpty.

(** Truth value of the result in [if name:]. *)
Definition truthy (r : name_result) : bool :=
  match r with
  | NamePair _ _ => true
  | NameNone => false
  | NameEmpty => false
  end.

(** [extract_name(soup)] *)
Definition extract_name (soup : document) : name_result :=
  match find_all "h1" soup with
  | h1_0 :: _ =>
      let name := strip (get_text h1_0) in
      if contains_char "," name then
        NamePair (nth 0 (split_on "," name) "") (nth 1 (split_on "," name) "")
      else if 1 <? List.length (split_ws name) then
        NamePair (last (split_ws name) "") (nth 0 (split_ws name) "")
      else NameNone
  | [] => NameEmpty
  end.

(** [soup.find(string=regex)]: the first text node in which the pattern
    occurs, with the elements after it. *)
Definition text_matching (r : regex) (n : node) : bool :=
  match n with
  | Text s => match search r s with Some _ => true | None => false end
  | Tag _ _ _ => false
  end.

Definition find_string (r : regex) (soup : document)
  : option (string * list node) :=
  match find_from (text_matching r) (elements soup) with
  | Some (n, following) => Some (get_text n, following)
  | None => None
  end.

(** [r'\S+@\S+\.\S+'] *)
Definition email_pattern : regex :=
  Cat (Plus non_space)
 (Cat (lit "@")
 (Cat (Plus non_space)
 (Cat (lit ".")
      (Plus non_space)))).

(** [extract_email(soup)] *)
Definition extract_email (soup : document) : string :=
  match find_string email_pattern soup with
  | Some (email, _) =>
      if negb (is_empty email) then
        match search email_pattern email with
        | Some email_match => strip_commas email_match
        | None => ""
        end
      else ""
  | None => ""
  end.

(** [r'(^phone$|^telephone$|^telephone:$)'] with IGNORECASE *)
Definition phone_label : regex :=
  Alt (Cat Bol (Cat (word_i "phone") Eol))
 (Alt (Cat Bol (Cat (word_i "telephone") Eol))
      (Cat Bol (Cat (word_i "telephone:") Eol))).

(** [r'\(?\d{3}\)?[ -.]?\/?\d{3}[ ]?[ -.]?[ ]?\d{4}']; the class
    [[ -.]] is the range from the space to the dot. *)
Definition phone_pattern : regex :=
  Cat (Opt (lit "("))
 (Cat (times 3 (Chr is_digit))
 (Cat (Opt (lit ")"))
 (Cat (Opt (Chr (range " " ".")))
 (Cat (Opt (lit "/"))
 (Cat (times 3 (Chr is_digit))
 (Cat (Opt (lit " "))
 (Cat (Opt (Chr (range " " ".")))
 (Cat (Opt (lit " "))
      (times 4 (Chr is_digit)))))))))).

(** [extract_phone(soup)]; [phone.find_next()] is [None] when no tag
    follows the label, and [None.get_text()] raises. *)
Definition extract_phone (soup : document) : result string :=
  match find_string phone_label soup with
  | Some (phone, following) =>
      if negb (is_empty phone) then
        let format1 := phone in
        match find_next following with
        | Some (next, _) =>
            let format2 := get_text next in
            match search phone_pattern (format1 ++ format2) with
            | Some phone_match => Ret phone_match
            | None => Ret ""
            end
        | None => Raise AttributeError
        end
      else Ret ""
  | None => Ret ""
  end.

(** [.replace(',', '-').replace('\n', ' ').strip()] *)
Definition normalize (text : string) : string :=
  strip (replace_char newline " " (replace_char "," "-" text)).

(** [soup.find('h2', string='Education')] *)
Definition education_heading (n : node) : bool :=
  tag_named "h2" n
  && match tag_string n with
     | Some s => String.eqb s "Education"
     | None => false
     end.

(** [extract_education(soup)] *)
Definition extract_education (soup : document) : result string :=
  match find_from education_heading (elements soup) with
  | Some (education, following) =>
      match find_next following with
      | Some (next_element, following') =>
          if String.eqb (tag_name next_element) "ul" then
            match find_next following' with
            | Some (e, _) => Ret (normalize (get_text e))
            | None => Raise AttributeError
            end
          else Ret (normalize (get_text next_element))
      | None => Raise AttributeError
      end
  | None => Ret ""
  end.

(** [get_info(url)]: the row of a page, or [None]. *)
Definition get_info (env : environment) (url : string)
  : M (option string) :=
  soup <- read_url env url ;;
  match soup with
  | Some soup =>
      let name := extract_name soup in
      if truthy name then
        match extract_name soup with
        | NamePair last_name first_name =>
            let email := extract_email soup in
            phone <- lift (extract_phone soup) ;;
            education <- lift (extract_education soup) ;;
            ret (Some (strip last_name ++ "," ++ strip first_name ++ ","
                       ++ strip email ++ ","
                       ++ strip phone ++ ","
                       ++ strip education))
        | NameNone => raise TypeError
        | NameEmpty => raise ValueError
        end
      else ret None
  | None => ret None
  end.

(** [ok_to_crawl(url)] *)
Definition ok_to_crawl (env : environment) (url : string) : M bool :=
  match urlparse env url with
  | (scheme, Some hostname) =>
      if is_empty scheme || is_empty hostname then
        print ("Not a valid absolute url:  " ++ url) ;;; ret false
      else
        let robot := urljoin env (scheme ++ "://" ++ hostname) "/robots.txt" in
        request robot ;;;
        match robots env robot with
        | RobotsRead can_fetch => ret (can_fetch (user_agent env) url)
        | RobotsURLError msg =>
            print ("Error opening robot.txt for url " ++ url ++ nl ++ msg) ;;;
            ret false
        | RobotsRaises e => raise e
        end
  | (_, None) => print ("Not a valid absolute url:  " ++ url) ;;; ret false
  end.

Definition header : string :=
  "Last Name,First Name,Email,Phone Number,Education " ++ nl.

(** The body of the loop of [harvest] at index [i]. *)
Definition harvest_body (env : environment) (filename : string)
  (people_links : list string) (i : nat) : M unit :=
  match nth_error people_links i with
  | Some link =>
      info <- get_info env link ;;
      match info with
      | Some row => write filename (row ++ nl)
      | None => ret tt
      end
  | None => raise IndexError
  end.

(** [harvest(url, filename)]; [len(people_links)] raises when the list
    is [None]. *)
Definition harvest (env : environment) (url filename : string) : M unit :=
  people_links <- get_people_links env url ;;
  open_w filename ;;;
  write filename header ;;;
  match people_links with
  | Some links =>
      for_each (seq 1 (List.length links - 1))
               (harvest_body env filename links)
  | None => raise TypeError
  end.

(** [main()], [argv] being [sys.argv]. *)
Definition main (env : environment) (argv : list string) : M unit :=
  if negb (List.length argv =? 2) then
    print "Error: invalid number of arguments" ;;;
    print "Usage: scrape.py filename"
  else if negb (String.eqb (extension (nth 1 argv "")) ".csv") then
    print "Please specify a csv filename"
  else
    let url := "https://sjsu.edu/people/" in
    ok <- ok_to_crawl env url ;;
    if ok then harvest env url (nth 1 argv "")
    else print "This URL cannot be fetched!".

End Scrape.
Import Scrape.

(* ================================================================= *)
(** ** The vocabulary of the properties *)

Module Props.

Definition starts_in (p : ascii -> bool) (s : string) : bool :=
  match s with
  | "" => false
  | String c _ => p c
  end.

Fixpoint ends_in (p : ascii -> bool) (s : string) : bool :=
  match s with
  | "" => false
  | String c "" => p c
  | String _ s' => ends_in p s'
  end.

(** [out] is [raw] without its leading and trailing characters of the
    class [p]. *)
Definition stripped_of (p : ascii -> bool) (raw out : string) : Prop :=
  exists l r,
    raw = l ++ out ++ r /\ all p l = true /\ all p r = true
    /\ starts_in p out = false /\ ends_in p out = false.

Fixpoint map_chars (f : ascii -> ascii) (s : string) : string :=
  match s with
  | "" => ""
  | String c s' => String (f c) (map_chars f s')
  end.

(** The replacement of characters in an education blurb: a comma
    becomes a hyphen, a newline becomes a space. *)
Definition blurb_char (c : ascii) : ascii :=
  if Ascii.eqb c "," then "-"%char
  else if Ascii.eqb c newline then " "%char
  else c.

(** [toks] are the maximal runs of [s] without white space, in order. *)
Inductive tokenized : string -> list string -> Prop :=
| tokenized_end : forall ws,
    all is_space ws = true -> tokenized ws []
| tokenized_token : forall ws t s toks,
    all is_space ws = true ->
    t <> "" -> all non_space t = true ->
    starts_in non_space s = false ->
    tokenized s toks ->
    tokenized (ws ++ t ++ s) (t :: toks).

(** The loose shape of an address: characters that are not white space
    around an at sign and a later dot. *)
Definition email_shape (m : string) : Prop :=
  exists u v w,
    m = u ++ "@" ++ v ++ "." ++ w
    /\ u <> "" /\ v <> "" /\ w <> ""
    /\ all non_space u = true /\ all non_space v = true
    /\ all non_space w = true.

(** [s] contains [m] after [pre] and [m] has the property [shape]. *)
Definition occurrence (shape : string -> Prop) (s pre m : string) : Prop :=
  exists post, s = pre ++ m ++ post /\ shape m.

Definition has (shape : string -> Prop) (s : string) : Prop :=
  exists pre m, occurrence shape s pre m.

(** No occurrence begins before [pre]. *)
Definition leftmost (shape : string -> Prop) (s pre : string) : Prop :=
  forall pre' m', occurrence shape s pre' m' ->
                  String.length pre <= String.length pre'.

Definition phone_word (w : string) : Prop :=
  lower w = "phone" \/ lower w = "telephone" \/ lower w = "telephone:".

(** What the pattern of the label accepts: one of the three words in
    any letter case, alone or before one final newline. *)
Definition is_phone_label (s : string) : Prop :=
  exists w, (s = w \/ s = w ++ nl) /\ phone_word w.

Definition digits (n : nat) (d : string) : Prop :=
  String.length d = n /\ all is_digit d = true.

Definition opt_char (p : ascii -> bool) (s : string) : Prop :=
  s = "" \/ exists c, s = String c "" /\ p c = true.

(** What [phone_pattern] accepts. *)
Definition phone_shape (m : string) : Prop :=
  exists lp area rp sep1 slash exch sp1 sep2 sp2 line,
    m = lp ++ area ++ rp ++ sep1 ++ slash ++ exch ++ sp1 ++ sep2 ++ sp2 ++ line
    /\ opt_char (Ascii.eqb "(") lp
    /\ digits 3 area
    /\ opt_char (Ascii.eqb ")") rp
    /\ opt_char (range " " ".") sep1
    /\ opt_char (Ascii.eqb "/") slash
    /\ digits 3 exch
    /\ opt_char (Ascii.eqb " ") sp1
    /\ opt_char (range " " ".") sep2
    /\ opt_char (Ascii.eqb " ") sp2
    /\ digits 4 line.

(** The text nodes of a document. *)
Definition text_node (soup : document) (s : string) : Prop :=
  In (Text s) (elements soup).

(** [s] is the first text node of the document with the property [P];
    [following] are the elements after it. *)
Definition first_text (P : string -> Prop) (soup : document)
  (s : string) (following : list node) : Prop :=
  exists before,
    elements soup = (before ++ Text s :: following)%list
    /\ P s
    /\ forall t, In (Text t) before -> ~ P t.

(** [x] is the first element of [l] that satisfies [p], and [rest] are
    the elements after it. *)
Definition first_where (p : node -> bool) (l : list node) (x : node)
  (rest : list node) : Prop :=
  exists before,
    l = (before ++ x :: rest)%list
    /\ p x = true
    /\ forallb (fun n => negb (p n)) before = true.

(** The first tag among [following]. *)
Definition next_tag (following : list node) (e : node)
  (following' : list node) : Prop :=
  first_where is_tag following e following'.

(** [out] is the blurb [raw] with its commas and newlines replaced and
    without the white space around it. *)
Definition normalized (raw out : string) : Prop :=
  stripped_of is_space (map_chars blurb_char raw) out
  /\ contains_char "," out = false
  /\ contains_char newline out = false.

Definition contents (n : node) : list node :=
  match n with
  | Tag _ _ cs => cs
  | Text _ => []
  end.

(** The row that [get_info] builds from a page, without the fetch. *)
Definition page_row (soup : document) : result (option string) :=
  match extract_name soup with
  | NamePair last_name first_name =>
      match extract_phone soup with
      | Ret phone =>
          match extract_education soup with
          | Ret education =>
              Ret (Some (strip last_name ++ "," ++ strip first_name ++ ","
                         ++ strip (extract_email soup) ++ ","
                         ++ strip phone ++ "," ++ strip education))
          | Raise e => Raise e
          end
      | Raise e => Raise e
      end
  | NameNone => Ret None
  | NameEmpty => Ret None
  end.

(** The world after a request to [url]. *)
Definition requested (url : string) (w : world) : world :=
  mkWorld (stdout w) (traffic w ++ [url])%list (files w).

(** The links that [get_people_links] collects from the index. *)
Definition collected_links (env : environment) (soup : document)
  : list string :=
  map (fun anchor =>
         urljoin env "https://sjsu.edu/"
           (match get_attr "href" anchor with Some v => v | None => "" end))
      (filter (fun n => tag_named "a" n && href_matches people_pattern n)
              (elements soup)).

(** What the page behind a link contributes: its row, nothing, or the
    exception of an extractor. *)
Definition link_row (env : environment) (link : string)
  : result (option string) :=
  match urlopen env link with
  | Fetched soup => page_row soup
  | URLError _ => Ret None
  | OtherError _ => Ret None
  end.

(** The lines written for a list of links when no extractor raises. *)
Fixpoint rows_of (env : environment) (links : list string) : list string :=
  match links with
  | [] => []
  | link :: rest =>
      match link_row env link with
      | Ret (Some row) => (row ++ nl) :: rows_of env rest
      | _ => rows_of env rest
      end
  end.

End Props.
Import Props.


(* ================================================================= *)
(** ** Pages and runs used as instances *)

Module Examples.

Definition h1 (text : string) : node := Tag "h1" [] [Text text].
Definition h2 (text : string) : node := Tag "h2" [] [Text text].
Definition par (text : string) : node := Tag "p" [] [Text text].
Definition td (text : string) : node := Tag "td" [] [Text text].
Definition li (text : string) : node := Tag "li" [] [Text text].

Definition page_comma : document := [h1 "Smith, Jane"].
Definition page_two_commas : document := [h1 "Smith, Jane, PhD"].
Definition page_three_tokens : document := [h1 "Jane Middle Smith"].
Definition page_one_token : document := [h1 "Cher"].
Definition page_no_heading : document := [par "Under construction"].

Definition page_education_par : document :=
  [h2 "Education"; par "Ph.D., Stanford, 2005"].

Definition education_list : node :=
  Tag "ul" [] [li "Ph.D., Stanford"; li "B.S., MIT"].

Definition page_education_list : document :=
  [h2 "Education"; education_list; par "Office hours"].

Definition page_education_empty_list : document :=
  [h2 "Education"; Tag "ul" [] [Text " "]; par "Office hours"].

Definition page_contact : document :=
  [par "Contact: jdoe@example.edu, office hours..."].

Definition page_leading_comma : document :=
  [par "Contact: ,jdoe@example.edu, office hours..."].

Definition page_phone : document :=
  [td "Phone"; td "(408) 924-1000"].

Definition page_phone_unlisted : document :=
  [td "Phone"; td "unlisted"].

(** The label is followed by a newline inside its cell. *)
Definition page_phone_newline : document :=
  [td ("Phone" ++ nl); td "(408) 924-1000"].

Definition anchor (href text : string) : node :=
  Tag "a" [("href", href)] [Text text].

Definition index_url : string := "https://sjsu.edu/people/".

(** The index: a link to the index itself and two profiles. *)
Definition index_page : document :=
  [anchor "/people/" "People";
   anchor "/about/" "About";
   anchor "/people/jane.doe/" "Jane Doe";
   anchor "/people/john.roe/" "John Roe"].

Definition jane_url : string := "https://sjsu.edu/people/jane.doe/".
Definition john_url : string := "https://sjsu.edu/people/john.roe/".

Definition page_jane : document :=
  [h1 "Jane Doe"; par "jdoe@example.edu"].

(** A profile that ends with the label of the telephone. *)
Definition page_jane_label_last : document :=
  [h1 "Jane Doe"; par "Phone"].

Definition page_john : document :=
  [h1 "Roe, John"; td "Phone"; td "(408) 924-1000"].

Definition not_found : string := "HTTP Error 404: Not Found".

Definition site (jane : document) (url : string) : fetch_outcome :=
  if String.eqb url index_url then Fetched index_page
  else if String.eqb url jane_url then Fetched jane
  else if String.eqb url john_url then Fetched page_john
  else URLError not_found.

(** References that begin with a slash, joined to the origin. *)
Definition join_origin (base href : string) : string :=
  "https://sjsu.edu" ++ href.

Definition allow_all : robots_outcome := RobotsRead (fun _ _ => true).

Definition env_site (jane : document) : environment :=
  mkEnv (site jane) join_origin
        (fun _ => ("https", Some "sjsu.edu"))
        (fun _ => allow_all) "Python-urllib/3.8".

(** The site with the index out of reach. *)
Definition env_index_down : environment :=
  mkEnv (fun _ => URLError not_found) join_origin
        (fun _ => ("https", Some "sjsu.edu"))
        (fun _ => allow_all) "Python-urllib/3.8".

(** A world in which the output file and another file exist already. *)
Definition world_with_files : world :=
  mkWorld [] [] [("people.csv", ["old contents"]); ("notes.txt", ["keep"])].

(** The site with a robots policy that forbids everything. *)
Definition env_forbidden : environment :=
  mkEnv (site page_jane) join_origin
        (fun _ => ("https", Some "sjsu.edu"))
        (fun _ => RobotsRead (fun _ _ => false)) "Python-urllib/3.8".

(** The heading of the education section with its word in bold. *)
Definition page_education_bold : document :=
  [Tag "h2" [] [Tag "b" [] [Text "Education"]];
   par "Ph.D., Stanford, 2005"].

(** The heading of the education section at the end of the page. *)
Definition page_education_last : document :=
  [h1 "Jane Doe"; h2 "Education"].

End Examples.
Import Examples.

(* ================================================================= *)
(** ** Further vocabulary *)

Module More.

(** The number of characters of a class in a text. *)
Fixpoint count_class (p : ascii -> bool) (s : string) : nat :=
  match s with
  | "" => 0
  | String c s' => (if p c then 1 else 0) + count_class p s'
  end.

(** A reference to a profile: it contains "/people/" in any letter
    case. *)
Definition people_href (href : string) : Prop :=
  has (fun m => lower m = "/people/") href.


(** The address at which [main] starts. *)
Definition start_url : string := "https://sjsu.edu/people/".



(** The messages of [read_url] for a list of links. *)
Fixpoint fetch_log (env : environment) (links : list string)
  : list string :=
  match links with
  | [] => []
  | link :: rest =>
      match urlopen env link with
      | Fetched _ => fetch_log env rest
      | URLError msg =>
          ("Error opening url: " ++ link ++ nl ++ msg) :: fetch_log env rest
      | OtherError msg =>
          ("Other error with url: " ++ link ++ nl ++ msg)
          :: fetch_log env rest
      end
  end.



End More.
Import More.

(* ================================================================= *)
(** ** Tactics *)

(** Inversion of a match of a concatenation [Cat r1 r2]: the text is
    [m1 ++ m2], [H1] and [H2] are the matches of the two parts. *)
Ltac invert_cat H m1 m2 H1 H2 :=
  inversion H as [| |? ? ? m1 m2 ? H1 H2| | | | | | |]; subst; clear H.

(** Inversion of a match of an alternative [Alt r1 r2]. *)
Ltac invert_alt H H1 :=
  inversion H as [| | |? ? ? ? ? H1|? ? ? ? ? H1| | | | |]; subst; clear H.

(* ================================================================= *)
(** ** Facts about strings *)

Lemma app_nil_r (s : string) : s ++ "" = s.
Proof. induction s; simpl; congruence. Qed.

Lemma app_assoc (a b c : string) : (a ++ b) ++ c = a ++ b ++ c.
Proof. induction a; simpl; congruence. Qed.

Lemma length_app (a b : string) :
  String.length (a ++ b) = String.length a + String.length b.
Proof. induction a; simpl; lia. Qed.

Lemma is_empty_app (a b : string) :
  is_empty (a ++ b) = is_empty a && is_empty b.
Proof. destruct a; reflexivity. Qed.

Lemma is_empty_true (s : string) : is_empty s = true -> s = "".
Proof. destruct s; simpl; congruence. Qed.

Lemma is_empty_false (s : string) : s <> "" -> is_empty s = false.
Proof. destruct s; simpl; congruence. Qed.

Lemma app_inv_head (a b c : string) : a ++ b = a ++ c -> b = c.
Proof. induction a; simpl; intros H; [exact H | inversion H; auto]. Qed.

Lemma app_length_inv (a b c d : string) :
  a ++ b = c ++ d -> String.length a = String.length c -> a = c /\ b = d.
Proof.
  revert c; induction a as [|x a IH]; intros [|y c]; simpl; intros H L;
    try discriminate.
  - auto.
  - inversion H; subst. destruct (IH c) as [-> ->]; auto.
Qed.

Lemma prefix_of_app (m rest : string) :
  substring 0 (String.length (m ++ rest) - String.length rest) (m ++ rest) = m.
Proof.
  rewrite length_app, Nat.add_sub.
  induction m as [|c m IH]; simpl.
  - destruct rest; reflexivity.
  - now rewrite IH.
Qed.

Lemma all_app (p : ascii -> bool) (a b : string) :
  all p (a ++ b) = all p a && all p b.
Proof. induction a; simpl; [reflexivity | rewrite IHa; apply andb_assoc]. Qed.

(** ** The matcher against the denotation of patterns *)

Lemma plus_match_sound (p : ascii -> bool) s k x :
  plus_match p s k = Some x ->
  exists m rest, s = m ++ rest /\ m <> "" /\ all p m = true /\ k rest = Some x.
Proof.
  revert x; induction s as [|c s IH]; simpl; intros x H; [discriminate|].
  destruct (p c) eqn:Pc; [|discriminate].
  destruct (plus_match p s k) as [y|] eqn:E.
  - inversion H; subst y.
    destruct (IH x eq_refl) as (m & rest & -> & _ & A & K).
    exists (String c m), rest; simpl; rewrite Pc, A; repeat split; congruence.
  - exists (String c ""), s; simpl; rewrite Pc; repeat split; congruence.
Qed.

Lemma plus_match_complete (p : ascii -> bool) m rest k x :
  m <> "" -> all p m = true -> k rest = Some x ->
  exists y, plus_match p (m ++ rest) k = Some y.
Proof.
  induction m as [|c m IH]; [congruence|]; simpl; intros _ A K.
  apply andb_prop in A; destruct A as [Pc A]; rewrite Pc.
  destruct m as [|d m].
  - simpl. destruct (plus_match p rest k); eauto.
  - destruct IH as [y ->]; [discriminate | assumption | assumption | eauto].
Qed.

Lemma rmatch_sound r : forall bol s k x,
  rmatch r bol s k = Some x ->
  exists m rest,
    s = m ++ rest /\ matches r bol m rest
    /\ k (bol && is_empty m) rest = Some x.
Proof.
  induction r as [|p|r1 IH1 r2 IH2|r1 IH1 r2 IH2|r IH|p| |];
    simpl; intros bol s k x H.
  - exists "", s; rewrite andb_true_r; repeat split; auto; constructor.
  - destruct s as [|c s]; [discriminate|].
    destruct (p c) eqn:Pc; [|discriminate].
    exists (String c ""), s; simpl; rewrite andb_false_r.
    repeat split; auto; now constructor.
  - apply IH1 in H; destruct H as (m1 & rest1 & -> & M1 & H).
    apply IH2 in H; destruct H as (m2 & rest & -> & M2 & H).
    exists (m1 ++ m2), rest; rewrite app_assoc, is_empty_app, andb_assoc.
    repeat split; auto; now constructor.
  - destruct (rmatch r1 bol s k) as [y|] eqn:E.
    + inversion H; subst y. apply IH1 in E.
      destruct E as (m & rest & -> & M & K).
      exists m, rest; repeat split; auto; now apply M_AltL.
    + apply IH2 in H. destruct H as (m & rest & -> & M & K).
      exists m, rest; repeat split; auto; now apply M_AltR.
  - destruct (rmatch r bol s k) as [y|] eqn:E.
    + inversion H; subst y. apply IH in E.
      destruct E as (m & rest & -> & M & K).
      exists m, rest; repeat split; auto; now apply M_OptSome.
    + exists "", s; rewrite andb_true_r; repeat split; auto; apply M_OptNone.
  - apply plus_match_sound in H. destruct H as (m & rest & -> & N & A & K).
    exists m, rest; rewrite (is_empty_false _ N), andb_false_r.
    repeat split; auto; now constructor.
  - destruct bol; [|discriminate].
    exists "", s; repeat split; auto; constructor.
  - destruct (at_eol s) eqn:E; [|discriminate].
    exists "", s; rewrite andb_true_r; repeat split; auto; now constructor.
Qed.

Lemma rmatch_complete r bol m rest :
  matches r bol m rest ->
  forall k x, k (bol && is_empty m) rest = Some x ->
  exists y, rmatch r bol (m ++ rest) k = Some y.
Proof.
  induction 1 as [bol rest|p c bol rest Pc|r1 r2 bol m1 m2 rest _ IH1 _ IH2
                 |r1 r2 bol m rest _ IH|r1 r2 bol m rest _ IH
                 |r bol m rest _ IH|r bol rest|p bol m rest N A|rest
                 |bol rest E]; intros k x K; simpl.
  - rewrite andb_true_r in K; eauto.
  - rewrite Pc. simpl in K; rewrite andb_false_r in K; eauto.
  - rewrite is_empty_app, andb_assoc in K.
    destruct (IH2 _ _ K) as [y Hy].
    rewrite app_assoc. apply (IH1 (fun b s' => rmatch r2 b s' k) y Hy).
  - destruct (IH _ _ K) as [y ->]; eauto.
  - destruct (rmatch r1 bol (m ++ rest) k); eauto.
  - destruct (IH _ _ K) as [y ->]; eauto.
  - rewrite andb_true_r in K.
    destruct (rmatch r bol rest k); eauto.
  - rewrite (is_empty_false _ N), andb_false_r in K.
    eapply plus_match_complete; eauto.
  - eauto.
  - rewrite E. rewrite andb_true_r in K; eauto.
Qed.

Lemma match_here_some r bol s m :
  match_here r bol s = Some m ->
  exists rest,
    s = m ++ rest /\ matches r bol m rest
    /\ rmatch r bol s (fun _ x => Some x) = Some rest.
Proof.
  unfold match_here.
  destruct (rmatch r bol s (fun _ rest => Some rest)) as [rest|] eqn:E;
    [|discriminate].
  intros H; inversion H; subst m; clear H.
  pose proof E as E'.
  apply rmatch_sound in E. destruct E as (m & rest' & -> & M & K).
  inversion K; subst rest'.
  exists rest; rewrite prefix_of_app; auto.
Qed.

Lemma match_here_none r bol s :
  match_here r bol s = None ->
  forall m rest, s = m ++ rest -> ~ matches r bol m rest.
Proof.
  unfold match_here; intros H m rest -> M.
  destruct (rmatch_complete _ _ _ _ M (fun _ rest => Some rest) _ eq_refl) as [y E].
  rewrite E in H; discriminate.
Qed.

Lemma search_from_none r : forall s bol,
  search_from r bol s = None ->
  forall pre m post,
    s = pre ++ m ++ post -> ~ matches r (bol && is_empty pre) m post.
Proof.
  induction s as [|c s IH]; simpl; intros bol H pre m post E.
  - destruct (match_here r bol "") eqn:E0; [discriminate|].
    destruct pre; [|discriminate]. simpl in E.
    rewrite andb_true_r. eapply match_here_none; eauto.
  - destruct (match_here r bol (String c s)) eqn:E0; [discriminate|].
    destruct pre as [|d pre]; simpl in E.
    + rewrite andb_true_r. eapply match_here_none; eauto.
    + inversion E; subst. rewrite andb_false_r.
      apply (IH false H pre m post eq_refl).
Qed.

(** The text found by a search: where it lies, that it is a match, that
    it is what the matcher chose there, and that no match begins
    earlier. *)
Lemma search_from_some r : forall s bol m,
  search_from r bol s = Some m ->
  exists pre post,
    s = pre ++ m ++ post
    /\ matches r (bol && is_empty pre) m post
    /\ rmatch r (bol && is_empty pre) (m ++ post) (fun _ x => Some x)
       = Some post
    /\ forall pre' m' post',
         s = pre' ++ m' ++ post' ->
         matches r (bol && is_empty pre') m' post' ->
         String.length pre <= String.length pre'.
Proof.
  induction s as [|c s IH]; intros bol m H; simpl in H.
  - destruct (match_here r bol "") eqn:E0; [|discriminate].
    inversion H; subst; clear H.
    apply match_here_some in E0. destruct E0 as (rest & E & M & R).
    exists "", rest; rewrite andb_true_r; simpl; repeat split; auto.
    + now rewrite <- E.
    + intros; lia.
  - destruct (match_here r bol (String c s)) eqn:E0.
    + inversion H; subst; clear H.
      apply match_here_some in E0. destruct E0 as (rest & E & M & R).
      exists "", rest; rewrite andb_true_r; simpl; repeat split; auto.
      * now rewrite <- E.
      * intros; lia.
    + apply IH in H. destruct H as (pre & post & -> & M & R & L).
      exists (String c pre), post; rewrite andb_false_r; simpl.
      repeat split; auto.
      intros [|d pre'] m' post' E' M'; simpl in *.
      * rewrite andb_true_r in M'.
        exfalso; eapply match_here_none; eauto.
      * inversion E'; subst d. rewrite andb_false_r in M'.
        apply le_n_S. eapply L; eauto.
Qed.

(** ** Splitting *)

Lemma non_space_false c : non_space c = false -> is_space c = true.
Proof. unfold non_space; destruct (is_space c); simpl; congruence. Qed.

Lemma non_space_true c : non_space c = true -> is_space c = false.
Proof. unfold non_space; destruct (is_space c); simpl; congruence. Qed.

Lemma split_ws_spaces ws s :
  all is_space ws = true -> split_ws (ws ++ s) = split_ws s.
Proof.
  induction ws as [|c ws IH]; simpl; intros H; [reflexivity|].
  apply andb_prop in H; destruct H as [-> H]; auto.
Qed.

Lemma split_ws_token t s :
  t <> "" -> all non_space t = true -> starts_in non_space s = false ->
  split_ws (t ++ s) = t :: split_ws s.
Proof.
  induction t as [|c t IH]; [congruence|]; intros _ A S.
  simpl in A; apply andb_prop in A; destruct A as [Pc A].
  change (String c t ++ s) with (String c (t ++ s)).
  cbn [split_ws]; rewrite (non_space_true _ Pc).
  destruct t as [|d t].
  - destruct s as [|e s]; simpl; [reflexivity|].
    simpl in S; now rewrite (non_space_false _ S).
  - change (String d t ++ s) with (String d (t ++ s)) in *.
    pose proof A as A'. simpl in A'; apply andb_prop in A'.
    destruct A' as [Pd _]. rewrite (non_space_true _ Pd).
    rewrite IH; auto; discriminate.
Qed.

Lemma tokenized_split_ws s toks : tokenized s toks -> split_ws s = toks.
Proof.
  induction 1 as [ws A|ws t s toks A N B S _ IH].
  - rewrite <- (app_nil_r ws). now rewrite split_ws_spaces.
  - rewrite split_ws_spaces, split_ws_token, IH; auto.
Qed.

Lemma split_ws_tokenized s : tokenized s (split_ws s).
Proof.
  induction s as [|c s IH]; [now apply tokenized_end|].
  cbn [split_ws]. destruct (is_space c) eqn:Sc.
  - inversion IH as [ws A E1 E2|ws t s0 toks A N B S T E1 E2].
    + apply tokenized_end; simpl; now rewrite Sc.
    + change (String c (ws ++ t ++ s0)) with (String c ws ++ t ++ s0).
      apply tokenized_token; auto; simpl; now rewrite Sc.
  - assert (Pc : non_space c = true) by (unfold non_space; now rewrite Sc).
    destruct s as [|d s].
    + apply (@tokenized_token "" (String c "") "" []); simpl; auto;
        try discriminate; try (now rewrite Pc); now apply tokenized_end.
    + destruct (is_space d) eqn:Sd.
      * apply (@tokenized_token "" (String c "") (String d s)); simpl; auto;
          try discriminate; try (now rewrite Pc).
        unfold non_space; now rewrite Sd.
      * inversion IH as [ws A E1 E2|ws t s0 toks A N B S T E1 E2].
        -- simpl in A; rewrite Sd in A; discriminate.
        -- destruct ws as [|e ws].
           ++ simpl in E1.
              apply (@tokenized_token "" (String c t) s0 toks); simpl; auto;
                try discriminate.
              now rewrite Pc, B.
           ++ simpl in E1; inversion E1; subst e.
              simpl in A; rewrite Sd in A; discriminate.
Qed.

Lemma contains_char_split c s :
  contains_char c s = true ->
  exists a b, s = a ++ String c b /\ contains_char c a = false.
Proof.
  induction s as [|d s IH]; simpl; [discriminate|].
  destruct (Ascii.eqb d c) eqn:E; simpl; intros H.
  - apply Ascii.eqb_eq in E; subst d. exists "", s; auto.
  - destruct (IH H) as (a & b & -> & Ha).
    exists (String d a), b; simpl; rewrite E; auto.
Qed.

Lemma split_on_sep sep a b :
  contains_char sep a = false ->
  split_on sep (a ++ String sep b) = a :: split_on sep b.
Proof.
  induction a as [|c a IH]; simpl; intros H.
  - now rewrite Ascii.eqb_refl.
  - apply orb_false_elim in H; destruct H as [E H].
    rewrite E, IH; auto.
Qed.

Lemma split_on_none sep a :
  contains_char sep a = false -> split_on sep a = [a].
Proof.
  induction a as [|c a IH]; simpl; intros H; [reflexivity|].
  apply orb_false_elim in H; destruct H as [E H].
  rewrite E, IH; auto.
Qed.

(** The first part of a split is what precedes the first separator. *)
Lemma split_on_head sep s :
  exists first tail,
    s = first ++ tail /\ contains_char sep first = false
    /\ starts_in (fun c => negb (Ascii.eqb c sep)) tail = false
    /\ nth 0 (split_on sep s) "" = first.
Proof.
  destruct (contains_char sep s) eqn:E.
  - destruct (contains_char_split _ _ E) as (a & b & -> & Ha).
    exists a, (String sep b); rewrite split_on_sep; auto; simpl.
    rewrite Ascii.eqb_refl; auto.
  - exists s, ""; rewrite split_on_none, app_nil_r; auto.
Qed.

(** No index of [extract_name] is out of range. *)
Lemma split_on_length sep s :
  contains_char sep s = true -> 2 <= List.length (split_on sep s).
Proof.
  intros E. destruct (contains_char_split _ _ E) as (a & b & -> & Ha).
  rewrite split_on_sep; auto. simpl.
  destruct b; simpl; [lia|].
  destruct (Ascii.eqb a0 sep); simpl; [lia|].
  destruct (split_on sep b); simpl; lia.
Qed.

(** ** Stripping and replacing *)

Lemma lstrip_by_spec p s :
  exists l, s = l ++ lstrip_by p s /\ all p l = true
            /\ starts_in p (lstrip_by p s) = false.
Proof.
  induction s as [|c s (l & E & A & S)]; simpl.
  - exists ""; auto.
  - destruct (p c) eqn:Pc.
    + exists (String c l); simpl; rewrite Pc, A; repeat split; congruence.
    + exists ""; simpl; auto.
Qed.

Lemma rstrip_by_spec p s :
  exists r, s = rstrip_by p s ++ r /\ all p r = true
            /\ ends_in p (rstrip_by p s) = false.
Proof.
  induction s as [|c s (r & E & A & S)]; simpl.
  - exists ""; auto.
  - destruct (rstrip_by p s) as [|d t] eqn:R.
    + simpl in E; subst r. destruct (p c) eqn:Pc.
      * exists (String c s); simpl; rewrite Pc, A; auto.
      * exists s; simpl; auto.
    + exists r; repeat split; auto. simpl in *; congruence.
Qed.

Lemma rstrip_by_starts p s :
  starts_in p s = false -> starts_in p (rstrip_by p s) = false.
Proof.
  destruct s as [|c s]; simpl; auto.
  intros Pc. destruct (rstrip_by p s); [rewrite Pc|]; simpl; auto.
Qed.

Lemma strip_by_spec p s : stripped_of p s (strip_by p s).
Proof.
  unfold strip_by, stripped_of.
  destruct (lstrip_by_spec p s) as (l & E & A & S).
  destruct (rstrip_by_spec p (lstrip_by p s)) as (r & E' & A' & S').
  exists l, r; repeat split; auto.
  - rewrite <- E'; exact E.
  - now apply rstrip_by_starts.
Qed.

Lemma contains_char_app c a b :
  contains_char c (a ++ b) = contains_char c a || contains_char c b.
Proof. induction a; simpl; [reflexivity | rewrite IHa; apply orb_assoc]. Qed.

Lemma stripped_of_contains p raw out c :
  stripped_of p raw out -> contains_char c raw = false ->
  contains_char c out = false.
Proof.
  intros (l & r & -> & _) H.
  rewrite !contains_char_app in H.
  destruct (contains_char c out); auto.
  rewrite orb_true_r in H; discriminate.
Qed.

Lemma replace_blurb text :
  replace_char newline " " (replace_char "," "-" text)
  = map_chars blurb_char text.
Proof.
  induction text as [|c t IH]; simpl; [reflexivity|].
  rewrite IH; f_equal. unfold blurb_char.
  destruct (Ascii.eqb c ","); [reflexivity|].
  destruct (Ascii.eqb c newline); reflexivity.
Qed.

Lemma blurb_no_char text c :
  (forall d, Ascii.eqb (blurb_char d) c = false) ->
  contains_char c (map_chars blurb_char text) = false.
Proof.
  intros H; induction text as [|d t IH]; simpl; [reflexivity|].
  now rewrite H, IH.
Qed.

Lemma blurb_char_not_comma d : Ascii.eqb (blurb_char d) "," = false.
Proof.
  unfold blurb_char.
  destruct (Ascii.eqb d ",") eqn:E1; [reflexivity|].
  destruct (Ascii.eqb d newline) eqn:E2; [reflexivity | exact E1].
Qed.

Lemma blurb_char_not_newline d : Ascii.eqb (blurb_char d) newline = false.
Proof.
  unfold blurb_char.
  destruct (Ascii.eqb d ",") eqn:E1; [reflexivity|].
  destruct (Ascii.eqb d newline) eqn:E2; [reflexivity | exact E2].
Qed.

Lemma normalize_normalized text : normalized text (normalize text).
Proof.
  unfold normalized, normalize. rewrite replace_blurb.
  pose proof (strip_by_spec is_space (map_chars blurb_char text)) as S.
  repeat split; [exact S| |];
    apply (stripped_of_contains _ _ _ _ S), blurb_no_char;
    [apply blurb_char_not_comma | apply blurb_char_not_newline].
Qed.

(** ** Searching the elements of a document *)

Lemma find_from_first p l x rest :
  find_from p l = Some (x, rest) <-> first_where p l x rest.
Proof.
  unfold first_where; split.
  - revert x rest; induction l as [|y l IH]; simpl; intros x rest H;
      [discriminate|].
    destruct (p y) eqn:Py.
    + inversion H; subst. exists []; auto.
    + destruct (IH _ _ H) as (before & -> & Px & B).
      exists (y :: before); simpl; rewrite Py; auto.
  - intros (before & -> & Px & B).
    induction before as [|y before IH]; simpl in *.
    + now rewrite Px.
    + apply andb_prop in B; destruct B as [Py B].
      apply negb_true_iff in Py; rewrite Py; auto.
Qed.

Lemma find_from_none p l :
  find_from p l = None <-> forall x, In x l -> p x = false.
Proof.
  induction l as [|y l IH]; simpl.
  - split; [intros _ x [] | reflexivity].
  - destruct (p y) eqn:Py; split.
    + discriminate.
    + intros H. specialize (H y (or_introl eq_refl)). congruence.
    + intros H x [<-|Hx]; [assumption | now apply IH].
    + intros H. apply IH. intros x Hx; apply H; auto.
Qed.

Lemma find_from_skip p before l :
  forallb (fun n => negb (p n)) before = true ->
  find_from p (before ++ l)%list = find_from p l.
Proof.
  induction before as [|y before IH]; simpl; intros B; [reflexivity|].
  apply andb_prop in B; destruct B as [Py B].
  apply negb_true_iff in Py; rewrite Py; auto.
Qed.

Lemma descendants_tag name attrs cs :
  descendants (Tag name attrs cs) = walk cs.
Proof. reflexivity. Qed.

Lemma node_induction (P : node -> Prop) :
  (forall s, P (Text s)) ->
  (forall name attrs cs, Forall P cs -> P (Tag name attrs cs)) ->
  forall n, P n.
Proof.
  intros HT HG.
  fix IH 1. intros [s|name attrs cs]; [apply HT|].
  apply HG. induction cs as [|c cs IHcs]; constructor; auto.
Qed.

(** In document order an element is followed first by what is below
    it. *)
Lemma walk_following_aux l :
  Forall (fun n => forall tail before x rest,
            (descendants n ++ tail = before ++ x :: rest)%list ->
            (exists after, rest = (descendants x ++ after)%list)
            \/ exists before',
                before = (descendants n ++ before')%list
                /\ tail = (before' ++ x :: rest)%list) l ->
  forall tail before x rest,
    (walk l ++ tail = before ++ x :: rest)%list ->
    (exists after, rest = (descendants x ++ after)%list)
    \/ exists before',
        before = (walk l ++ before')%list
        /\ tail = (before' ++ x :: rest)%list.
Proof.
  induction 1 as [|c cs Hc _ IH]; simpl; intros tail before x rest E.
  - right; exists before; auto.
  - destruct before as [|b before]; simpl in E; inversion E; subst.
    + left. rewrite <- List.app_assoc. eauto.
    + rewrite <- List.app_assoc in H1.
      destruct (Hc _ _ _ _ H1) as [?|(b1 & -> & E1)]; [now left|].
      destruct (IH _ _ _ _ E1) as [?|(b2 & -> & E2)]; [now left|].
      right; exists b2; rewrite <- !List.app_assoc; auto.
Qed.

Lemma walk_following l : forall tail before x rest,
  (walk l ++ tail = before ++ x :: rest)%list ->
  (exists after, rest = (descendants x ++ after)%list)
  \/ exists before',
      before = (walk l ++ before')%list
      /\ tail = (before' ++ x :: rest)%list.
Proof.
  apply walk_following_aux.
  induction l as [|c l IH]; constructor; auto.
  clear. induction c as [s|name attrs cs IH] using node_induction.
  - simpl; intros tail before x rest E. right; exists before; auto.
  - intros tail before x rest. rewrite descendants_tag.
    now apply walk_following_aux.
Qed.

Lemma elements_following soup before x rest :
  elements soup = (before ++ x :: rest)%list ->
  exists after, rest = (descendants x ++ after)%list.
Proof.
  unfold elements; intros E.
  destruct (@walk_following soup [] before x rest) as [?|(b & -> & E')];
    [now rewrite List.app_nil_r | assumption |].
  destruct b; discriminate.
Qed.

(** The first tag below a tag, in document order, is the first tag of
    its contents. *)
Lemma walk_first_tag cs item rest tail :
  first_where is_tag cs item rest ->
  exists following, find_from is_tag (walk cs ++ tail)%list
                    = Some (item, following).
Proof.
  intros (before & -> & T & B).
  induction before as [|b before IH]; simpl in *.
  - rewrite T; eauto.
  - apply andb_prop in B; destruct B as [Tb B].
    destruct b as [s|]; [|discriminate]. simpl. auto.
Qed.

Lemma walk_no_tag cs tail :
  (forall c, In c cs -> is_tag c = false) ->
  find_from is_tag (walk cs ++ tail)%list = find_from is_tag tail.
Proof.
  induction cs as [|c cs IH]; simpl; intros H; [reflexivity|].
  pose proof (H c (or_introl eq_refl)) as Tc.
  destruct c as [s|]; [|discriminate]. simpl. auto.
Qed.


(** ** The Name Extractor *)

(** C5: when the trimmed text of the first level-1 heading has no comma
    and more than one token separated by white space, the Name Extractor
    returns the last token as last name and the first token as first
    name; when the document has no level-1 heading it returns the empty
    string, which is falsy. *)
Theorem C5_name_from_tokens : forall soup,
  (forall h others toks,
      find_all "h1" soup = h :: others ->
      contains_char "," (strip (get_text h)) = false ->
      tokenized (strip (get_text h)) toks ->
      1 < List.length toks ->
      extract_name soup = NamePair (last toks "") (hd "" toks))
  /\ (find_all "h1" soup = [] ->
      extract_name soup = NameEmpty /\ truthy (extract_name soup) = false).
Proof.
  intros soup; unfold extract_name; split.
  - intros h others toks -> C T L.
    apply tokenized_split_ws in T. rewrite C, T.
    apply Nat.ltb_lt in L; rewrite L.
    destruct toks; reflexivity.
  - intros ->; auto.
Qed.

Lemma C5_name_from_tokens_witness :
  extract_name page_three_tokens = NamePair "Smith" "Jane"
  /\ extract_name page_no_heading = NameEmpty.
Proof.
  split.
  - apply (proj1 (C5_name_from_tokens page_three_tokens)
             (h1 "Jane Middle Smith") [] ["Jane"; "Middle"; "Smith"]).
    + reflexivity.
    + reflexivity.
    + apply (@tokenized_token "" "Jane" " Middle Smith");
        [reflexivity | discriminate | reflexivity | reflexivity |].
      apply (@tokenized_token " " "Middle" " Smith");
        [reflexivity | discriminate | reflexivity | reflexivity |].
      apply (@tokenized_token " " "Smith" "");
        [reflexivity | discriminate | reflexivity | reflexivity |].
      apply tokenized_end; reflexivity.
    + simpl; lia.
  - apply (proj2 (C5_name_from_tokens page_no_heading)); reflexivity.
Defined.

(** C4, as the code has it: when the trimmed text of the first level-1
    heading contains a comma, the last name is the text before the
    first comma and the first name is the text between the first comma
    and the second one, or the end of the text when there is no second
    comma; neither is trimmed. *)
Theorem C4_name_from_comma : forall soup h others,
  find_all "h1" soup = h :: others ->
  contains_char "," (strip (get_text h)) = true ->
  exists last_name first_name tail,
    strip (get_text h) = last_name ++ "," ++ first_name ++ tail
    /\ contains_char "," last_name = false
    /\ contains_char "," first_name = false
    /\ (tail = "" \/ starts_in (Ascii.eqb ",") tail = true)
    /\ extract_name soup = NamePair last_name first_name.
Proof.
  intros soup h others F C. unfold extract_name; rewrite F, C.
  destruct (contains_char_split _ _ C) as (a & b & E & Ha).
  destruct (split_on_head "," b) as (first & tail & Eb & Hf & St & N).
  exists a, first, tail. rewrite E, split_on_sep by assumption.
  simpl nth. rewrite N, Eb. repeat split; auto.
  destruct tail as [|c tail]; [now left | right].
  simpl in St. destruct (Ascii.eqb c ",") eqn:Ec; [|discriminate].
  apply Ascii.eqb_eq in Ec; subst c; reflexivity.
Qed.

Lemma C4_name_from_comma_witness :
  exists last_name first_name tail,
    strip (get_text (h1 "Smith, Jane, PhD"))
    = last_name ++ "," ++ first_name ++ tail
    /\ contains_char "," last_name = false
    /\ contains_char "," first_name = false
    /\ (tail = "" \/ starts_in (Ascii.eqb ",") tail = true)
    /\ extract_name page_two_commas = NamePair last_name first_name.
Proof.
  apply (@C4_name_from_comma page_two_commas (h1 "Smith, Jane, PhD") []);
    reflexivity.
Defined.

(** C4 as it is written fails: with two commas in the heading the first
    name is not the entire text after the first comma. *)
Lemma C4_counterexample :
  find_all "h1" page_two_commas = [h1 "Smith, Jane, PhD"]
  /\ strip (get_text (h1 "Smith, Jane, PhD")) = "Smith" ++ "," ++ " Jane, PhD"
  /\ contains_char "," "Smith" = false
  /\ extract_name page_two_commas = NamePair "Smith" " Jane"
  /\ extract_name page_two_commas <> NamePair "Smith" " Jane, PhD".
Proof. repeat split; try reflexivity. discriminate. Qed.

(** ** The Education Extractor *)

Lemma extract_education_found soup h following next following' :
  first_where education_heading (elements soup) h following ->
  next_tag following next following' ->
  extract_education soup
  = if String.eqb (tag_name next) "ul" then
      match find_next following' with
      | Some (e, _) => Ret (normalize (get_text e))
      | None => Raise AttributeError
      end
    else Ret (normalize (get_text next)).
Proof.
  intros H N. apply find_from_first in H. apply find_from_first in N.
  unfold extract_education, find_next in *. now rewrite H, N.
Qed.

(** C8: in both branches the Education Extractor returns the text of
    the element it reads with every comma replaced by a hyphen and every
    newline by a space, without the white space around it; a heading
    followed directly by the paragraph "Ph.D., Stanford, 2005" gives
    "Ph.D.- Stanford- 2005". *)
Theorem C8_education_normalized : forall soup h following next following',
  first_where education_heading (elements soup) h following ->
  next_tag following next following' ->
  (tag_name next <> "ul" ->
   exists out, extract_education soup = Ret out
               /\ normalized (get_text next) out)
  /\ (tag_name next = "ul" ->
      forall e following'', next_tag following' e following'' ->
      exists out, extract_education soup = Ret out
                  /\ normalized (get_text e) out)
  /\ (tag_name next = "p" ->
      get_text next = "Ph.D., Stanford, 2005" ->
      extract_education soup = Ret "Ph.D.- Stanford- 2005").
Proof.
  intros soup h following next following' H N.
  rewrite (extract_education_found soup _ _ _ _ H N). repeat split.
  - intros U. apply String.eqb_neq in U; rewrite U.
    eexists; split; [reflexivity | apply normalize_normalized].
  - intros U e following'' E. apply String.eqb_eq in U; rewrite U.
    apply find_from_first in E. unfold find_next; rewrite E.
    eexists; split; [reflexivity | apply normalize_normalized].
  - intros U T. rewrite U, T. reflexivity.
Qed.

Lemma C8_education_normalized_witness :
  (exists out, extract_education page_education_par = Ret out
               /\ normalized "Ph.D., Stanford, 2005" out)
  /\ (exists out, extract_education page_education_list = Ret out
                  /\ normalized "Ph.D., Stanford" out)
  /\ extract_education page_education_par = Ret "Ph.D.- Stanford- 2005".
Proof.
  assert (P : first_where education_heading (elements page_education_par)
                (h2 "Education")
                [Text "Education"; par "Ph.D., Stanford, 2005";
                 Text "Ph.D., Stanford, 2005"])
    by (exists []; repeat split; reflexivity).
  assert (Q : next_tag [Text "Education"; par "Ph.D., Stanford, 2005";
                        Text "Ph.D., Stanford, 2005"]
                (par "Ph.D., Stanford, 2005") [Text "Ph.D., Stanford, 2005"])
    by (exists [Text "Education"]; repeat split; reflexivity).
  assert (P' : first_where education_heading (elements page_education_list)
                 (h2 "Education")
                 (Text "Education" :: education_list
                  :: (descendants education_list
                      ++ [par "Office hours"; Text "Office hours"])%list))
    by (exists []; repeat split; reflexivity).
  assert (Q' : next_tag (Text "Education" :: education_list
                         :: (descendants education_list
                             ++ [par "Office hours"; Text "Office hours"])%list)
                 education_list
                 (descendants education_list
                  ++ [par "Office hours"; Text "Office hours"])%list)
    by (exists [Text "Education"]; repeat split; reflexivity).
  split; [|split].
  - apply (proj1 (C8_education_normalized _ _ _ _ _ P Q)). discriminate.
  - apply (proj1 (proj2 (C8_education_normalized _ _ _ _ _ P' Q')) eq_refl
             (li "Ph.D., Stanford")
             [Text "Ph.D., Stanford"; li "B.S., MIT"; Text "B.S., MIT";
              par "Office hours"; Text "Office hours"]).
    exists []; repeat split; reflexivity.
  - apply (proj2 (proj2 (C8_education_normalized _ _ _ _ _ P Q))); reflexivity.
Defined.

(** C3, as the code has it: when the element after the heading
    "Education" is an unordered list, the Education Extractor returns
    the normalized text of the first tag in the contents of the list,
    that is of its first item; it reads the element that follows the
    list only when the list contains no tag. *)
Theorem C3_education_list : forall soup h following ul following',
  first_where education_heading (elements soup) h following ->
  next_tag following ul following' ->
  tag_name ul = "ul" ->
  (forall item others,
      first_where is_tag (contents ul) item others ->
      extract_education soup = Ret (normalize (get_text item)))
  /\ ((forall c, In c (contents ul) -> is_tag c = false) ->
      exists after,
        following' = (descendants ul ++ after)%list
        /\ forall e after', next_tag after e after' ->
             extract_education soup = Ret (normalize (get_text e))).
Proof.
  intros soup h following ul following' H N U.
  rewrite (extract_education_found soup _ _ _ _ H N).
  apply String.eqb_eq in U; rewrite U.
  destruct H as (b1 & E1 & _). destruct N as (b2 & E2 & T & _).
  rewrite E2 in E1.
  change (b1 ++ h :: b2 ++ ul :: following')%list
    with (b1 ++ (h :: b2) ++ ul :: following')%list in E1.
  rewrite List.app_assoc in E1.
  destruct (elements_following _ _ _ _ E1) as (after & ->).
  destruct ul as [s|name attrs cs]; [discriminate|].
  rewrite descendants_tag; simpl contents; unfold find_next; split.
  - intros item others I.
    destruct (walk_first_tag _ _ _ after I) as (f & ->). reflexivity.
  - intros A. exists after; split; [reflexivity|].
    intros e after' E. rewrite walk_no_tag by assumption.
    apply find_from_first in E. now rewrite E.
Qed.

Lemma C3_education_list_witness :
  extract_education page_education_list = Ret "Ph.D.- Stanford"
  /\ extract_education page_education_empty_list = Ret "Office hours".
Proof.
  split.
  - apply (proj1 (@C3_education_list page_education_list (h2 "Education")
                    (Text "Education" :: education_list
                     :: (descendants education_list
                         ++ [par "Office hours"; Text "Office hours"])%list)
                    education_list
                    (descendants education_list
                     ++ [par "Office hours"; Text "Office hours"])%list
                    ltac:(exists []; repeat split; reflexivity)
                    ltac:(exists [Text "Education"]; repeat split; reflexivity)
                    eq_refl)
             (li "Ph.D., Stanford") [li "B.S., MIT"]).
    exists []; repeat split; reflexivity.
  - destruct (proj2 (@C3_education_list page_education_empty_list
                       (h2 "Education")
                       [Text "Education"; Tag "ul" [] [Text " "]; Text " ";
                        par "Office hours"; Text "Office hours"]
                       (Tag "ul" [] [Text " "])
                       [Text " "; par "Office hours"; Text "Office hours"]
                       ltac:(exists []; repeat split; reflexivity)
                       ltac:(exists [Text "Education"]; repeat split;
                             reflexivity)
                       eq_refl)) as (after & E & R).
    + intros c [<-|[]]; reflexivity.
    + inversion E; subst after.
      apply (R (par "Office hours") [Text "Office hours"]).
      exists []; repeat split; reflexivity.
Defined.

(** The reading of C3: the element read is the one that follows the
    list, after everything that the list contains. *)
Lemma C3_counterexample :
  first_where education_heading (elements page_education_list)
    (h2 "Education")
    (Text "Education" :: education_list
     :: (descendants education_list
         ++ [par "Office hours"; Text "Office hours"])%list)
  /\ next_tag (Text "Education" :: education_list
               :: (descendants education_list
                   ++ [par "Office hours"; Text "Office hours"])%list)
       education_list
       (descendants education_list
        ++ [par "Office hours"; Text "Office hours"])%list
  /\ tag_name education_list = "ul"
  /\ next_tag [par "Office hours"; Text "Office hours"]
       (par "Office hours") [Text "Office hours"]
  /\ extract_education page_education_list = Ret "Ph.D.- Stanford"
  /\ extract_education page_education_list
     <> Ret (normalize (get_text (par "Office hours"))).
Proof.
  repeat split; try reflexivity; try discriminate.
  - exists []; repeat split; reflexivity.
  - exists [Text "Education"]; repeat split; reflexivity.
  - exists []; repeat split; reflexivity.
Qed.

(** ** Searching a text for a shape *)

Section SearchShape.

Variable r : regex.
Variable shape : string -> Prop.
Hypothesis r_shape : forall bol m rest, matches r bol m rest <-> shape m.

Lemma search_none_shape s : search r s = None -> ~ has shape s.
Proof.
  intros H (pre & m & post & E & S).
  apply (search_from_none _ _ _ H pre m post E). now apply r_shape.
Qed.

Lemma search_some_shape s m :
  search r s = Some m ->
  exists pre post,
    s = pre ++ m ++ post /\ shape m /\ leftmost shape s pre
    /\ rmatch r (is_empty pre) (m ++ post) (fun _ x => Some x) = Some post.
Proof.
  intros H. apply search_from_some in H.
  destruct H as (pre & post & E & M & R & L).
  exists pre, post; repeat split; auto.
  - eapply r_shape; eauto.
  - intros pre' m' (post' & E' & S'). eapply L; eauto.
    apply r_shape; eauto.
Qed.

Lemma search_shape_iff s : search r s <> None <-> has shape s.
Proof.
  split.
  - destruct (search r s) as [m|] eqn:E; [intros _|congruence].
    destruct (search_some_shape _ _ E) as (pre & post & E' & S & _).
    exists pre, m, post; auto.
  - intros H E. now apply (search_none_shape _ E).
Qed.

End SearchShape.

(** ** Finding the first text node with a property *)

Section FindString.

Variable r : regex.
Variable P : string -> Prop.
Hypothesis r_P : forall s, search r s <> None <-> P s.

Lemma text_matching_iff n :
  text_matching r n = true <-> exists s, n = Text s /\ P s.
Proof.
  destruct n as [s|name attrs cs]; simpl.
  - pose proof (r_P s) as I.
    destruct (search r s); split.
    + intros _; exists s; split; auto. apply I; discriminate.
    + reflexivity.
    + discriminate.
    + intros (s' & E & H); inversion E; subst s'.
      apply I in H; congruence.
  - split; [discriminate | intros (s & E & _); discriminate].
Qed.

Lemma find_string_first soup s following :
  first_text P soup s following ->
  find_string r soup = Some (s, following).
Proof.
  intros (before & E & H & B). unfold find_string.
  assert (F : find_from (text_matching r) (elements soup)
              = Some (Text s, following)).
  { apply find_from_first. exists before; repeat split; auto.
    - apply text_matching_iff; eauto.
    - apply forallb_forall. intros n I.
      destruct (text_matching r n) eqn:T; [|reflexivity].
      apply text_matching_iff in T. destruct T as (t & -> & Ht).
      exfalso; exact (B t I Ht). }
  now rewrite F.
Qed.

Lemma find_string_none soup :
  (forall s, text_node soup s -> ~ P s) ->
  find_string r soup = None.
Proof.
  intros H. unfold find_string.
  assert (F : find_from (text_matching r) (elements soup) = None).
  { apply find_from_none. intros n I.
    destruct (text_matching r n) eqn:T; [|reflexivity].
    apply text_matching_iff in T. destruct T as (t & -> & Ht).
    exfalso; exact (H t I Ht). }
  now rewrite F.
Qed.

End FindString.


(** The result of the matcher is an answer of its continuation. *)
Lemma rmatch_answer r bol s k x :
  rmatch r bol s k = Some x -> exists b s', k b s' = Some x.
Proof.
  intros H. apply rmatch_sound in H.
  destruct H as (m & rest & _ & _ & K); eauto.
Qed.

(** A final greedy run leaves nothing of its class behind. *)
Lemma plus_match_greedy p s x :
  plus_match p s (fun rest => Some rest) = Some x -> starts_in p x = false.
Proof.
  revert x; induction s as [|c s IH]; simpl; intros x H; [discriminate|].
  destruct (p c); [|discriminate].
  destruct (plus_match p s (fun rest => Some rest)) as [y|] eqn:E.
  - inversion H; subst y; auto.
  - inversion H; subst x. destruct s as [|d s]; simpl in *; auto.
    destruct (p d) eqn:Pd; [|reflexivity].
    destruct (plus_match p s (fun rest => Some rest)); discriminate.
Qed.

Lemma matches_plus_inv p bol m rest :
  matches (Plus p) bol m rest -> m <> "" /\ all p m = true.
Proof. inversion 1; auto. Qed.

Lemma matches_lit_inv c bol m rest :
  matches (lit c) bol m rest -> m = String c "".
Proof.
  unfold lit; inversion 1; subst.
  match goal with H : Ascii.eqb _ _ = true |- _ =>
    apply Ascii.eqb_eq in H; now subst end.
Qed.

Lemma matches_lit c bol rest : matches (lit c) bol (String c "") rest.
Proof. apply M_Chr, Ascii.eqb_refl. Qed.

(** ** The Email Extractor *)

Lemma email_pattern_shape bol m rest :
  matches email_pattern bol m rest <-> email_shape m.
Proof.
  unfold email_pattern, email_shape; split.
  - intros H.
    invert_cat H u m1 Hu H1.
    invert_cat H1 a m2 Ha H2.
    invert_cat H2 v m3 Hv H3.
    invert_cat H3 d w Hd Hw.
    apply matches_plus_inv in Hu, Hv, Hw.
    apply matches_lit_inv in Ha, Hd. subst a d.
    exists u, v, w; intuition.
  - intros (u & v & w & -> & Nu & Nv & Nw & Au & Av & Aw).
    repeat (apply M_Cat);
      try apply matches_lit; now apply M_Plus.
Qed.

Lemma rmatch_cat_answer r1 r2 bol s k x :
  rmatch (Cat r1 r2) bol s k = Some x ->
  exists b s', rmatch r2 b s' k = Some x.
Proof. simpl; apply rmatch_answer. Qed.

(** The match of the address runs to the end of its word. *)
Lemma email_pattern_greedy bol s rest :
  rmatch email_pattern bol s (fun _ x => Some x) = Some rest ->
  starts_in non_space rest = false.
Proof.
  unfold email_pattern; intros H.
  do 4 (apply rmatch_cat_answer in H; destruct H as (? & ? & H)).
  simpl in H. now apply plus_match_greedy in H.
Qed.

Lemma email_search_iff s :
  search email_pattern s <> None <-> has email_shape s.
Proof. apply search_shape_iff, email_pattern_shape. Qed.

Lemma has_not_empty shape s :
  has shape s -> ~ shape "" -> s <> "".
Proof.
  intros (pre & m & post & E & S) N ->.
  destruct pre; [|discriminate]. destruct m; [auto | discriminate].
Qed.

Lemma email_shape_not_empty : ~ email_shape "".
Proof.
  intros (u & v & w & E & Nu & _). destruct u; [congruence | discriminate].
Qed.

(** C6, as the code has it: the Email Extractor returns the empty
    string when the loose shape of an address occurs in no text node;
    otherwise it takes the first text node in which the shape occurs
    and, there, the leftmost occurrence, which runs to the end of its
    word, and returns it without the commas at its beginning and at its
    end. *)
Theorem C6_extract_email : forall soup,
  ((forall s, text_node soup s -> ~ has email_shape s) ->
   extract_email soup = "")
  /\ (forall s following,
        first_text (has email_shape) soup s following ->
        exists pre m post,
          s = pre ++ m ++ post
          /\ email_shape m
          /\ leftmost email_shape s pre
          /\ starts_in non_space post = false
          /\ stripped_of (Ascii.eqb ",") m (extract_email soup)).
Proof.
  intros soup; unfold extract_email; split.
  - intros H.
    now rewrite (find_string_none _ _ email_search_iff soup H).
  - intros s following F.
    rewrite (find_string_first _ _ email_search_iff _ _ _ F).
    destruct F as (_ & _ & H & _).
    rewrite (is_empty_false _ (has_not_empty _ _ H email_shape_not_empty)).
    simpl negb; cbv iota.
    apply email_search_iff in H.
    destruct (search email_pattern s) as [m|] eqn:E; [|congruence].
    destruct (search_some_shape _ _ email_pattern_shape _ _ E)
      as (pre & post & Es & S & L & R).
    exists pre, m, post; repeat split; auto.
    + now apply email_pattern_greedy in R.
    + apply strip_by_spec.
Qed.

Lemma C6_extract_email_witness :
  extract_email page_no_heading = ""
  /\ exists pre m post,
       "Contact: jdoe@example.edu, office hours..." = pre ++ m ++ post
       /\ email_shape m
       /\ leftmost email_shape "Contact: jdoe@example.edu, office hours..." pre
       /\ starts_in non_space post = false
       /\ stripped_of (Ascii.eqb ",") m (extract_email page_contact).
Proof.
  split.
  - apply (proj1 (C6_extract_email page_no_heading)).
    intros s [E|[E|[]]]; inversion E; subst s. clear E.
    intros H; apply email_search_iff in H; apply H; reflexivity.
  - apply (proj2 (C6_extract_email page_contact)
             "Contact: jdoe@example.edu, office hours..." []).
    exists [par "Contact: jdoe@example.edu, office hours..."].
    repeat split.
    + apply email_search_iff; discriminate.
    + intros t [E|[]]; discriminate.
Defined.

(** C6 as it is written fails: a comma at the beginning of the match is
    stripped as well. *)
Lemma C6_counterexample :
  find_string email_pattern page_leading_comma
  = Some ("Contact: ,jdoe@example.edu, office hours...", [])
  /\ search email_pattern "Contact: ,jdoe@example.edu, office hours..."
     = Some ",jdoe@example.edu,"
  /\ rstrip_by (Ascii.eqb ",") ",jdoe@example.edu," = ",jdoe@example.edu"
  /\ extract_email page_leading_comma = "jdoe@example.edu"
  /\ extract_email page_leading_comma <> ",jdoe@example.edu".
Proof. repeat split; try reflexivity. discriminate. Qed.

(** ** The Phone Extractor *)

Lemma matches_word_i w : forall bol m rest,
  matches (word_i w) bol m rest <-> lower m = lower w.
Proof.
  induction w as [|c w IH]; intros bol m rest; simpl; split.
  - inversion 1; reflexivity.
  - destruct m; [constructor | discriminate].
  - intros H.
    invert_cat H m1 m2 H1 H2.
    unfold lit_i in H1; inversion H1; subst; clear H1.
    apply IH in H2. simpl. rewrite H2. f_equal.
    match goal with E : Ascii.eqb _ _ = true |- _ =>
      now apply Ascii.eqb_eq in E end.
  - destruct m as [|d m]; simpl; [discriminate|]. intros H; inversion H.
    change (String d m) with (String d "" ++ m).
    apply M_Cat.
    + apply M_Chr. match goal with E : lower_char _ = _ |- _ =>
        rewrite E end. apply Ascii.eqb_refl.
    + now apply IH.
Qed.

Lemma at_eol_cases rest : at_eol rest = true <-> rest = "" \/ rest = nl.
Proof.
  destruct rest as [|c [|d rest]]; simpl; split; auto.
  - intros E; apply Ascii.eqb_eq in E; subst; now right.
  - intros [E|E]; [discriminate|]. inversion E. reflexivity.
  - discriminate.
  - intros [E|E]; discriminate.
Qed.

Lemma labelled_word_matches w bol m rest :
  matches (Cat Bol (Cat (word_i w) Eol)) bol m rest
  <-> bol = true /\ lower m = lower w /\ at_eol rest = true.
Proof.
  split.
  - intros H.
    invert_cat H m1 m2 H1 H2.
    inversion H1; subst; clear H1.
    invert_cat H2 m3 m4 H3 H4.
    inversion H4; subst; clear H4.
    apply matches_word_i in H3. simpl. rewrite app_nil_r. auto.
  - intros (-> & L & E).
    change m with ("" ++ m). apply M_Cat; [constructor|].
    rewrite <- (app_nil_r m). apply M_Cat.
    + now apply matches_word_i.
    + now apply M_Eol.
Qed.

Lemma phone_label_matches bol m rest :
  matches phone_label bol m rest
  <-> bol = true /\ phone_word m /\ at_eol rest = true.
Proof.
  unfold phone_label, phone_word; split.
  - intros H. invert_alt H H1.
    + apply (labelled_word_matches "phone") in H1.
      destruct H1 as (? & ? & ?); auto.
    + invert_alt H1 H2.
      * apply (labelled_word_matches "telephone") in H2.
        destruct H2 as (? & ? & ?); auto.
      * apply (labelled_word_matches "telephone:") in H2.
        destruct H2 as (? & ? & ?); auto.
  - intros (B & [L|[L|L]] & E).
    + apply M_AltL, (labelled_word_matches "phone"); auto.
    + apply M_AltR, M_AltL, (labelled_word_matches "telephone"); auto.
    + apply M_AltR, M_AltR, (labelled_word_matches "telephone:"); auto.
Qed.

Lemma phone_label_search s :
  search phone_label s <> None <-> is_phone_label s.
Proof.
  unfold is_phone_label; split.
  - destruct (search phone_label s) as [m|] eqn:E; [intros _|congruence].
    apply search_from_some in E.
    destruct E as (pre & post & -> & M & _).
    apply phone_label_matches in M. destruct M as (B & W & E).
    simpl in B. apply is_empty_true in B; subst pre. simpl.
    exists m; split; auto.
    apply at_eol_cases in E. destruct E as [->| ->]; auto.
    left; now rewrite app_nil_r.
  - intros (w & E & W) H.
    assert (M : forall post, at_eol post = true ->
                             matches phone_label true w post)
      by (intros; apply phone_label_matches; auto).
    destruct E as [->| ->].
    + apply (search_from_none _ _ _ H "" w ""); simpl;
        [now rewrite app_nil_r | now apply M].
    + apply (search_from_none _ _ _ H "" w nl); simpl;
        [reflexivity | now apply M].
Qed.

Lemma matches_opt_chr p bol m rest :
  matches (Opt (Chr p)) bol m rest <-> opt_char p m.
Proof.
  unfold opt_char; split.
  - inversion 1 as [| | | | |? ? ? ? H1| | | |]; subst; [|now left].
    inversion H1; subst. right; eauto.
  - intros [->|(c & -> & Pc)]; [apply M_OptNone|].
    now apply M_OptSome, M_Chr.
Qed.

Lemma matches_digits n : forall bol m rest,
  matches (times n (Chr is_digit)) bol m rest <-> digits n m.
Proof.
  unfold digits.
  induction n as [|n IH]; intros bol m rest; simpl; split.
  - inversion 1; auto.
  - intros (L & _). destruct m; [constructor | discriminate].
  - intros H.
    invert_cat H m1 m2 H1 H2.
    inversion H1; subst; clear H1. apply IH in H2.
    destruct H2 as (L & A). simpl.
    match goal with E : is_digit _ = true |- _ => rewrite E end.
    auto.
  - intros (L & A). destruct m as [|d m]; [discriminate|].
    simpl in L, A. apply andb_prop in A; destruct A as [D A].
    change (String d m) with (String d "" ++ m).
    apply M_Cat; [now apply M_Chr|]. apply IH. split; [lia | assumption].
Qed.

Lemma phone_pattern_shape bol m rest :
  matches phone_pattern bol m rest <-> phone_shape m.
Proof.
  unfold phone_pattern, phone_shape, lit; split.
  - intros H0.
    invert_cat H0 lp m1 A1 H1.
    invert_cat H1 area m2 A2 H2.
    invert_cat H2 rp m3 A3 H3.
    invert_cat H3 sep1 m4 A4 H4.
    invert_cat H4 slash m5 A5 H5.
    invert_cat H5 exch m6 A6 H6.
    invert_cat H6 sp1 m7 A7 H7.
    invert_cat H7 sep2 m8 A8 H8.
    invert_cat H8 sp2 line A9 A10.
    apply matches_opt_chr in A1, A3, A4, A5, A7, A8, A9.
    apply (matches_digits 3) in A2, A6. apply (matches_digits 4) in A10.
    exists lp, area, rp, sep1, slash, exch, sp1, sep2, sp2, line.
    split; [reflexivity | tauto].
  - intros (lp & area & rp & sep1 & slash & exch & sp1 & sep2 & sp2 & line
            & -> & A1 & A2 & A3 & A4 & A5 & A6 & A7 & A8 & A9 & A10).
    repeat (apply M_Cat);
      try (now apply matches_opt_chr);
      try (now apply (matches_digits 3)); now apply (matches_digits 4).
Qed.

Lemma phone_search_iff s :
  search phone_pattern s <> None <-> has phone_shape s.
Proof. apply search_shape_iff, phone_pattern_shape. Qed.

Lemma phone_word_not_empty : ~ phone_word "".
Proof. intros [H|[H|H]]; discriminate. Qed.

Lemma phone_label_not_empty s : is_phone_label s -> s <> "".
Proof.
  intros (w & E & W) ->.
  assert (w = "") by (destruct E as [E|E]; destruct w; auto; discriminate).
  subst w; now apply phone_word_not_empty.
Qed.

(** C7, as the code has it: the Phone Extractor returns the empty string
    when no text node is a label, a label being one of the words
    "phone", "telephone" and "telephone:" in any letter case, alone
    or before one final newline.  Otherwise, when a tag follows the first
    label in document order, it joins the label and the whole text of the
    first such tag, and returns the leftmost text of the shape of
    [phone_pattern] there, or the empty string when there is none. *)
Theorem C7_extract_phone : forall soup,
  ((forall s, text_node soup s -> ~ is_phone_label s) ->
   extract_phone soup = Ret "")
  /\ (forall label following next following',
        first_text is_phone_label soup label following ->
        next_tag following next following' ->
        (~ has phone_shape (label ++ get_text next) ->
         extract_phone soup = Ret "")
        /\ (has phone_shape (label ++ get_text next) ->
            exists pre m,
              occurrence phone_shape (label ++ get_text next) pre m
              /\ leftmost phone_shape (label ++ get_text next) pre
              /\ extract_phone soup = Ret m)).
Proof.
  intros soup; unfold extract_phone; split.
  - intros H.
    now rewrite (find_string_none _ _ phone_label_search soup H).
  - intros label following next following' F N.
    rewrite (find_string_first _ _ phone_label_search _ _ _ F).
    destruct F as (_ & _ & L & _).
    rewrite (is_empty_false _ (phone_label_not_empty _ L)).
    simpl negb; cbv iota.
    apply find_from_first in N. unfold find_next; rewrite N.
    split; intros H.
    + destruct (search phone_pattern (label ++ get_text next)) eqn:E;
        [|reflexivity].
      exfalso; apply H, phone_search_iff; congruence.
    + apply phone_search_iff in H.
      destruct (search phone_pattern (label ++ get_text next)) as [m|] eqn:E;
        [|congruence].
      destruct (search_some_shape _ _ phone_pattern_shape _ _ E)
        as (pre & post & Es & S & Lm & _).
      exists pre, m; repeat split; auto. exists post; auto.
Qed.

Lemma C7_extract_phone_witness :
  extract_phone page_no_heading = Ret ""
  /\ extract_phone page_phone_unlisted = Ret ""
  /\ exists pre m,
       occurrence phone_shape ("Phone" ++ "(408) 924-1000") pre m
       /\ leftmost phone_shape ("Phone" ++ "(408) 924-1000") pre
       /\ extract_phone page_phone = Ret m.
Proof.
  assert (L : is_phone_label "Phone")
    by (exists "Phone"; split; [now left | left; reflexivity]).
  split; [|split].
  - apply (proj1 (C7_extract_phone page_no_heading)).
    intros s [E|[E|[]]]; inversion E; subst s.
    intros H; apply phone_label_search in H; apply H; reflexivity.
  - apply (proj2 (C7_extract_phone page_phone_unlisted)
             "Phone" [td "unlisted"; Text "unlisted"]
             (td "unlisted") [Text "unlisted"]).
    + exists [td "Phone"]. repeat split; [exact L|].
      intros t [E|[]]; discriminate.
    + exists []; repeat split; reflexivity.
    + intros H; apply phone_search_iff in H; apply H; reflexivity.
  - apply (proj2 (C7_extract_phone page_phone)
             "Phone" [td "(408) 924-1000"; Text "(408) 924-1000"]
             (td "(408) 924-1000") [Text "(408) 924-1000"]).
    + exists [td "Phone"]. repeat split; [exact L|].
      intros t [E|[]]; discriminate.
    + exists []; repeat split; reflexivity.
    + apply phone_search_iff; discriminate.
Defined.

(** C7 as it is written fails: no text node of this page is, in any
    letter case, one of the three words, and a number is returned. *)
Lemma C7_counterexample :
  (forall s, text_node page_phone_newline s ->
             lower s <> "phone" /\ lower s <> "telephone"
             /\ lower s <> "telephone:")
  /\ extract_phone page_phone_newline = Ret "(408) 924-1000"
  /\ extract_phone page_phone_newline <> Ret "".
Proof.
  split; [|split; [reflexivity | discriminate]].
  intros s [E|[E|[E|[E|[]]]]]; inversion E; subst s;
    repeat split; intros H; vm_compute in H; discriminate H.
Qed.

(** ** Fetching pages *)

Lemma read_url_fetched env url soup w :
  urlopen env url = Fetched soup ->
  read_url env url w = (Ret (Some soup), requested url w).
Proof. intros H; unfold read_url, bind, request; simpl; now rewrite H. Qed.

Lemma get_info_fetched env url soup w :
  urlopen env url = Fetched soup ->
  get_info env url w = (page_row soup, requested url w).
Proof.
  intros H; unfold get_info, bind.
  rewrite (read_url_fetched _ _ _ _ H). unfold page_row.
  destruct (extract_name soup); simpl; try reflexivity.
  unfold lift. destruct (extract_phone soup); [|reflexivity].
  destruct (extract_education soup); reflexivity.
Qed.

Lemma get_info_unreachable env url w :
  (forall soup, urlopen env url <> Fetched soup) ->
  exists msg,
    get_info env url w
    = (Ret None, mkWorld (stdout w ++ [msg])%list (traffic w ++ [url])%list
                         (files w)).
Proof.
  intros H; unfold get_info, read_url, bind, request, print; simpl.
  destruct (urlopen env url) as [soup|msg|msg]; simpl.
  - now destruct (H soup).
  - eexists; reflexivity.
  - eexists; reflexivity.
Qed.

Lemma get_people_links_fetched env url soup w :
  urlopen env url = Fetched soup ->
  get_people_links env url w
  = (Ret (Some (collected_links env soup)), requested url w).
Proof.
  intros H; unfold get_people_links, bind.
  now rewrite (read_url_fetched _ _ _ _ H).
Qed.

(** ** Files *)

Lemma file_lookup_update name f fs c :
  file_lookup name fs = Some c ->
  file_lookup name (file_update name f fs) = Some (f c).
Proof.
  induction fs as [|[n d] fs IH]; simpl; [discriminate|].
  destruct (String.eqb n name) eqn:E; simpl; rewrite E; auto.
  intros H; inversion H; reflexivity.
Qed.

(** ** The command line *)

(** C9: with an argument count other than one, or with an output path
    whose extension is not ".csv", the program prints its usage error
    and ends; no file is created or changed and nothing is requested
    from the network. *)
Theorem C9_usage_error : forall env argv w,
  List.length argv <> 2 \/ extension (nth 1 argv "") <> ".csv" ->
  main env argv w
  = (Ret tt,
     mkWorld (stdout w
              ++ (if List.length argv =? 2
                  then ["Please specify a csv filename"]
                  else ["Error: invalid number of arguments";
                        "Usage: scrape.py filename"]))%list
             (traffic w) (files w)).
Proof.
  intros env argv w H. unfold main.
  destruct (List.length argv =? 2) eqn:L; simpl.
  - destruct H as [H|H]; [apply Nat.eqb_eq in L; contradiction|].
    apply String.eqb_neq in H; rewrite H. reflexivity.
  - unfold bind, print; simpl. now rewrite <- List.app_assoc.
Qed.

Lemma C9_usage_error_witness :
  main env_index_down ["scrape.py"; "people.txt"] empty_world
  = (Ret tt, mkWorld ["Please specify a csv filename"] [] [])
  /\ main env_index_down ["scrape.py"] empty_world
     = (Ret tt, mkWorld ["Error: invalid number of arguments";
                         "Usage: scrape.py filename"] [] []).
Proof.
  split.
  - apply (C9_usage_error env_index_down ["scrape.py"; "people.txt"]
             empty_world).
    right; discriminate.
  - apply (C9_usage_error env_index_down ["scrape.py"] empty_world).
    left; simpl; lia.
Defined.

(** ** Pages without a name *)

Lemma page_row_no_name soup :
  truthy (extract_name soup) = false -> page_row soup = Ret None.
Proof. unfold page_row; destruct (extract_name soup); auto; discriminate. Qed.

(** C10: a level-1 heading whose trimmed text is one token without a
    comma makes the Name Extractor return [None], which is not the empty
    string that it returns without a level-1 heading; both are falsy,
    and for a page with either result [get_info] returns no record and
    the body of the loop of the Harvester writes nothing. *)
Theorem C10_single_token_no_row : forall soup,
  (forall h others t,
      find_all "h1" soup = h :: others ->
      contains_char "," (strip (get_text h)) = false ->
      tokenized (strip (get_text h)) [t] ->
      extract_name soup = NameNone)
  /\ (find_all "h1" soup = [] -> extract_name soup = NameEmpty)
  /\ NameNone <> NameEmpty
  /\ truthy NameNone = false
  /\ truthy NameEmpty = false
  /\ (extract_name soup = NameNone \/ extract_name soup = NameEmpty ->
      forall env url w,
        urlopen env url = Fetched soup ->
        fst (get_info env url w) = Ret None
        /\ forall filename links i,
             nth_error links i = Some url ->
             fst (harvest_body env filename links i w) = Ret tt
             /\ files (snd (harvest_body env filename links i w)) = files w).
Proof.
  intros soup.
  split; [|split; [|split; [|split; [|split]]]]; try discriminate;
    try reflexivity.
  - intros h others t F C T. unfold extract_name.
    apply tokenized_split_ws in T. now rewrite F, C, T.
  - intros F. unfold extract_name. now rewrite F.
  - intros N env url w U.
    assert (R : page_row soup = Ret None)
      by (apply page_row_no_name; destruct N as [-> | ->]; reflexivity).
    split.
    + now rewrite (get_info_fetched _ _ _ _ U), R.
    + intros filename links i L. unfold harvest_body, bind.
      now rewrite L, (get_info_fetched _ _ _ _ U), R.
Qed.

Lemma C10_single_token_no_row_witness :
  extract_name page_one_token = NameNone
  /\ extract_name page_no_heading = NameEmpty
  /\ fst (get_info (env_site page_one_token) jane_url empty_world) = Ret None
  /\ files (snd (harvest_body (env_site page_one_token) "people.csv"
                   [index_url; jane_url] 1
                   (mkWorld [] [] [("people.csv", [header])])))
     = [("people.csv", [header])].
Proof.
  pose proof (C10_single_token_no_row page_one_token)
    as (A & _ & _ & _ & _ & B).
  pose proof (C10_single_token_no_row page_no_heading)
    as (_ & C & _).
  assert (N : extract_name page_one_token = NameNone).
  { apply (A (h1 "Cher") [] "Cher"); try reflexivity.
    apply (@tokenized_token "" "Cher" "");
      [reflexivity | discriminate | reflexivity | reflexivity |].
    apply tokenized_end; reflexivity. }
  split; [exact N | split; [apply C; reflexivity | split]].
  - apply (proj1 (B (or_introl N) (env_site page_one_token) jane_url
                    empty_world eq_refl)).
  - apply (proj2 (B (or_introl N) (env_site page_one_token) jane_url
                    (mkWorld [] [] [("people.csv", [header])]) eq_refl)
             "people.csv" [index_url; jane_url] 1).
    reflexivity.
Defined.

(** ** The Harvester *)

Lemma link_row_get_info env link w :
  exists w', get_info env link w = (link_row env link, w')
             /\ files w' = files w.
Proof.
  unfold link_row. destruct (urlopen env link) as [soup|msg|msg] eqn:E.
  - rewrite (get_info_fetched _ _ _ _ E). eexists; split; reflexivity.
  - unfold get_info, read_url, bind, request, print; simpl; rewrite E; simpl.
    eexists; split; reflexivity.
  - unfold get_info, read_url, bind, request, print; simpl; rewrite E; simpl.
    eexists; split; reflexivity.
Qed.

(** A row is the row of a page that was fetched and has a name. *)
Lemma link_row_some env link row :
  link_row env link = Ret (Some row) ->
  exists soup, urlopen env link = Fetched soup
               /\ truthy (extract_name soup) = true.
Proof.
  unfold link_row. destruct (urlopen env link) as [soup|msg|msg];
    try discriminate.
  intros H; exists soup; split; [reflexivity|].
  unfold page_row in H. destruct (extract_name soup); auto; discriminate.
Qed.

(** A page that was fetched, has a name and makes no extractor raise
    gives a row. *)
Lemma link_row_named env link soup phone education :
  urlopen env link = Fetched soup ->
  truthy (extract_name soup) = true ->
  extract_phone soup = Ret phone ->
  extract_education soup = Ret education ->
  exists row, link_row env link = Ret (Some row).
Proof.
  intros F T P E. unfold link_row, page_row; rewrite F, P, E.
  destruct (extract_name soup); try discriminate. eauto.
Qed.

Lemma harvest_body_row env filename links i link r w c :
  nth_error links i = Some link ->
  link_row env link = Ret r ->
  file_lookup filename (files w) = Some c ->
  exists w',
    harvest_body env filename links i w = (Ret tt, w')
    /\ file_lookup filename (files w')
       = Some (c ++ match r with
                    | Some row => [(row ++ nl)%string]
                    | None => []
                    end)%list.
Proof.
  intros N R F. unfold harvest_body, bind; rewrite N.
  destruct (link_row_get_info env link w) as (w' & -> & Fw).
  rewrite R. destruct r as [row|].
  - unfold write; simpl. eexists; split; [reflexivity|]. simpl.
    rewrite Fw.
    exact (file_lookup_update _ (fun d => d ++ [(row ++ nl)%string])%list
             _ _ F).
  - unfold ret. exists w'; split; [reflexivity|].
    now rewrite Fw, List.app_nil_r.
Qed.

Lemma harvest_loop env filename : forall l before w c,
  (forall link, In link l -> exists r, link_row env link = Ret r) ->
  file_lookup filename (files w) = Some c ->
  exists w',
    for_each (seq (List.length before) (List.length l))
             (harvest_body env filename (before ++ l)%list) w
    = (Ret tt, w')
    /\ file_lookup filename (files w') = Some (c ++ rows_of env l)%list.
Proof.
  induction l as [|link l IH]; intros before w c R F; simpl.
  - exists w; split; [reflexivity | now rewrite List.app_nil_r].
  - destruct (R link (or_introl eq_refl)) as (r & Hr).
    assert (N : nth_error (before ++ link :: l)%list (List.length before)
                = Some link)
      by (rewrite nth_error_app2, Nat.sub_diag; auto).
    destruct (harvest_body_row env filename _ _ link r w c N Hr F)
      as (w1 & B & F1).
    unfold bind at 1; rewrite B.
    destruct (IH (before ++ [link])%list w1 _
                 (fun x Hx => R x (or_intror Hx)) F1) as (w2 & L & F2).
    rewrite List.length_app, Nat.add_1_r, <- List.app_assoc in L.
    simpl in L. exists w2; split; [exact L|].
    rewrite F2, <- List.app_assoc, Hr. destruct r; reflexivity.
Qed.

Lemma rows_of_length env links :
  List.length (rows_of env links) <= List.length links.
Proof.
  induction links as [|link links IH]; simpl; [lia|].
  destruct (link_row env link) as [[row|]|e]; simpl; lia.
Qed.

(** After the index is fetched the file holds the header and the loop
    begins. *)
Lemma harvest_fetched env url filename w soup :
  urlopen env url = Fetched soup ->
  harvest env url filename w
  = for_each (seq 1 (List.length (collected_links env soup) - 1))
             (harvest_body env filename (collected_links env soup))
             (mkWorld (stdout w) (traffic w ++ [url])%list
                      ((filename, [header])
                       :: file_remove filename (files w))).
Proof.
  intros F. unfold harvest.
  unfold bind at 1. rewrite (get_people_links_fetched _ _ _ _ F).
  unfold bind, open_w, write, requested; simpl.
  now rewrite String.eqb_refl.
Qed.

(** A run of the Harvester in which no extractor raises: the header is
    followed by the rows of the links after the first, one for each page
    that was fetched and has a name, so that [N] links give at most
    [N - 1] rows. *)
Theorem harvest_rows env url filename w soup :
  urlopen env url = Fetched soup ->
  (forall link, In link (tl (collected_links env soup)) ->
                exists r, link_row env link = Ret r) ->
  exists w',
    harvest env url filename w = (Ret tt, w')
    /\ file_lookup filename (files w')
       = Some (header :: rows_of env (tl (collected_links env soup)))
    /\ List.length (rows_of env (tl (collected_links env soup)))
       <= List.length (collected_links env soup) - 1.
Proof.
  intros F R. rewrite (harvest_fetched _ _ _ _ _ F).
  set (w1 := mkWorld _ _ _).
  assert (F1 : file_lookup filename (files w1) = Some [header])
    by (simpl; now rewrite String.eqb_refl).
  destruct (collected_links env soup) as [|first links].
  - exists w1; split; [reflexivity | split; [exact F1 | simpl; lia]].
  - simpl tl in *.
    replace (List.length (first :: links) - 1) with (List.length links)
      by (simpl; lia).
    destruct (harvest_loop env filename links [first] w1 [header] R F1)
      as (w2 & L & F2).
    exists w2; repeat split; auto. apply rows_of_length.
Qed.

(** C2 fails on the code: when the index page cannot be fetched the
    error is logged and the header is written, and then the Harvester
    ends with the [TypeError] of [len(None)] instead of completing. *)
Theorem C2_index_unreachable_is_fatal : forall env url filename w,
  (forall soup, urlopen env url <> Fetched soup) ->
  exists msg,
    harvest env url filename w
    = (Raise TypeError,
       mkWorld (stdout w ++ [msg])%list (traffic w ++ [url])%list
               ((filename, [header]) :: file_remove filename (files w))).
Proof.
  intros env url filename w H.
  unfold harvest, get_people_links, read_url, bind, request, print,
    open_w, write, raise; simpl.
  destruct (urlopen env url) as [soup|msg|msg]; simpl.
  - now destruct (H soup).
  - rewrite String.eqb_refl; eexists; reflexivity.
  - rewrite String.eqb_refl; eexists; reflexivity.
Qed.

Lemma C2_index_unreachable_is_fatal_witness :
  exists msg,
    harvest env_index_down index_url "people.csv" empty_world
    = (Raise TypeError,
       mkWorld [msg] [index_url] [("people.csv", [header])]).
Proof.
  apply (C2_index_unreachable_is_fatal env_index_down index_url
           "people.csv" empty_world).
  intros soup; discriminate.
Defined.

(** The whole program on the same site: the robots policy allows the
    crawl and the run ends with the exception. *)
Example main_index_unreachable :
  main env_index_down ["scrape.py"; "people.csv"] empty_world
  = (Raise TypeError,
     mkWorld ["Error opening url: " ++ index_url ++ nl ++ not_found]
             ["https://sjsu.edu/robots.txt"; index_url]
             [("people.csv", [header])]).
Proof. reflexivity. Qed.

(** A label of the telephone with no tag after it: [find_next()] is
    [None] and its [get_text] raises. *)
Lemma extract_phone_label_last soup label following :
  first_text is_phone_label soup label following ->
  (forall n, In n following -> is_tag n = false) ->
  extract_phone soup = Raise AttributeError.
Proof.
  intros F T. unfold extract_phone.
  rewrite (find_string_first _ _ phone_label_search _ _ _ F).
  destruct F as (_ & _ & L & _).
  rewrite (is_empty_false _ (phone_label_not_empty _ L)).
  simpl negb; cbv iota. unfold find_next.
  apply find_from_none in T. now rewrite T.
Qed.

(** C1 fails on the code: when the page of the second link was fetched
    and has a name but ends with the label of the telephone, with no tag
    after it, the Harvester ends with an [AttributeError] after the
    header: no row is written for that page, nor for any later one. *)
Theorem C1_named_page_without_row :
  forall env url filename w index first link rest page label following,
    urlopen env url = Fetched index ->
    collected_links env index = first :: link :: rest ->
    urlopen env link = Fetched page ->
    truthy (extract_name page) = true ->
    first_text is_phone_label page label following ->
    (forall n, In n following -> is_tag n = false) ->
    harvest env url filename w
    = (Raise AttributeError,
       mkWorld (stdout w) (traffic w ++ [url; link])%list
               ((filename, [header]) :: file_remove filename (files w))).
Proof.
  intros env url filename w index first link rest page label following
         I C P N L T.
  rewrite (harvest_fetched _ _ _ _ _ I), C.
  replace (List.length (first :: link :: rest) - 1)
    with (S (List.length rest)) by (simpl; lia).
  assert (R : page_row page = Raise AttributeError).
  { unfold page_row. rewrite (extract_phone_label_last _ _ _ L T).
    destruct (extract_name page); try discriminate; reflexivity. }
  cbn [seq for_each]. unfold bind at 1, harvest_body at 1.
  cbn [nth_error]. unfold bind at 1.
  rewrite (get_info_fetched _ _ _ _ P), R.
  unfold requested; simpl. now rewrite <- List.app_assoc.
Qed.

Lemma C1_named_page_without_row_witness :
  harvest (env_site page_jane_label_last) index_url "people.csv" empty_world
  = (Raise AttributeError,
     mkWorld [] [index_url; jane_url] [("people.csv", [header])]).
Proof.
  apply (C1_named_page_without_row (env_site page_jane_label_last)
           index_url "people.csv" empty_world index_page
           index_url jane_url [john_url] page_jane_label_last
           "Phone" []).
  - reflexivity.
  - reflexivity.
  - reflexivity.
  - reflexivity.
  - exists [h1 "Jane Doe"; Text "Jane Doe"; par "Phone"].
    split; [reflexivity | split].
    + exists "Phone"; split; [now left | left; reflexivity].
    + intros t [E|[E|[E|[]]]]; inversion E; subst t.
      intros H; apply phone_label_search in H; apply H; reflexivity.
  - intros n [].
Defined.

(** On that site the page of the third link was fetched and has a name
    as well, and the file ends with the header. *)
Example third_page_named :
  collected_links (env_site page_jane_label_last) index_page
  = [index_url; jane_url; john_url]
  /\ urlopen (env_site page_jane_label_last) john_url = Fetched page_john
  /\ truthy (extract_name page_john) = true.
Proof. repeat split; reflexivity. Qed.

(** The same site with a complete page for the second link: the run
    completes with one row for each of the two profiles. *)
Example harvest_rows_site :
  exists w',
    harvest (env_site page_jane) index_url "people.csv" empty_world
    = (Ret tt, w')
    /\ file_lookup "people.csv" (files w')
       = Some [header;
               "Doe,Jane,jdoe@example.edu,," ++ nl;
               "Roe,John,,(408) 924-1000," ++ nl].
Proof.
  destruct (harvest_rows (env_site page_jane) index_url "people.csv"
              empty_world index_page eq_refl) as (w' & H & F & _).
  - intros link [<-|[<-|[]]]; eexists; reflexivity.
  - exists w'; split; [exact H | exact F].
Qed.

(** ** The examples of the specification *)

Example name_with_comma :
  extract_name page_comma = NamePair "Smith" " Jane"
  /\ (strip "Smith", strip " Jane") = ("Smith", "Jane").
Proof. split; reflexivity. Qed.

Example name_with_middle_token :
  extract_name page_three_tokens = NamePair "Smith" "Jane".
Proof. reflexivity. Qed.

Example email_with_trailing_comma :
  extract_email page_contact = "jdoe@example.edu".
Proof. reflexivity. Qed.

Example phone_after_label :
  extract_phone page_phone = Ret "(408) 924-1000".
Proof. reflexivity. Qed.

Example education_paragraph :
  extract_education page_education_par = Ret "Ph.D.- Stanford- 2005".
Proof. reflexivity. Qed.

Example no_heading_no_row :
  link_row (env_site page_no_heading) jane_url = Ret None.
Proof. reflexivity. Qed.

(* ================================================================= *)
(** ** Every run of the Harvester *)



(** What [get_info] does to the world: one request, and one message
    when the page cannot be fetched. *)
Lemma get_info_world env link w :
  get_info env link w
  = (link_row env link,
     mkWorld (stdout w ++ fetch_log env [link])%list
             (traffic w ++ [link])%list (files w)).
Proof.
  unfold link_row, fetch_log.
  destruct (urlopen env link) as [soup|msg|msg] eqn:E.
  - rewrite (get_info_fetched _ _ _ _ E), List.app_nil_r. reflexivity.
  - unfold get_info, read_url, bind, request, print; simpl.
    now rewrite E.
  - unfold get_info, read_url, bind, request, print; simpl.
    now rewrite E.
Qed.















(* ================================================================= *)
(** ** Permission to crawl and the whole program *)

Lemma ok_to_crawl_files env url w :
  files (snd (ok_to_crawl env url w)) = files w.
Proof.
  unfold ok_to_crawl.
  destruct (urlparse env url) as [scheme [hostname|]]; [|reflexivity].
  destruct (is_empty scheme || is_empty hostname); [reflexivity|].
  unfold bind, request.
  destruct (robots env _); reflexivity.
Qed.



Lemma main_after_check env argv w :
  List.length argv = 2 ->
  extension (nth 1 argv "") = ".csv" ->
  main env argv w
  = match ok_to_crawl env start_url w with
    | (Ret true, w') => harvest env start_url (nth 1 argv "") w'
    | (Ret false, w') => print "This URL cannot be fetched!" w'
    | (Raise e, w') => (Raise e, w')
    end.
Proof.
  intros L E. unfold main. rewrite L, E. simpl. unfold bind, start_url.
  destruct (ok_to_crawl env "https://sjsu.edu/people/" w) as [[[|]|e] w'];
    reflexivity.
Qed.

(** With a well-formed command line, a run in which [ok_to_crawl] does
    not answer [True] (the policy forbids the crawl or cannot be read, or
    reading it raises) creates and changes no file and requests nothing
    but what the check itself requested. *)
Theorem main_without_permission : forall env argv w,
  List.length argv = 2 ->
  extension (nth 1 argv "") = ".csv" ->
  fst (ok_to_crawl env start_url w) <> Ret true ->
  files (snd (main env argv w)) = files w
  /\ traffic (snd (main env argv w))
     = traffic (snd (ok_to_crawl env start_url w))
  /\ (fst (ok_to_crawl env start_url w) = Ret false ->
      fst (main env argv w) = Ret tt
      /\ stdout (snd (main env argv w))
         = (stdout (snd (ok_to_crawl env start_url w))
            ++ ["This URL cannot be fetched!"])%list).
Proof.
  intros env argv w L E N. rewrite (main_after_check env argv w L E).
  pose proof (ok_to_crawl_files env start_url w) as F.
  destruct (ok_to_crawl env start_url w) as [[[|]|e] w']; simpl in *.
  - congruence.
  - repeat split; auto.
  - repeat split; auto; discriminate.
Qed.

Lemma main_without_permission_witness :
  files (snd (main env_forbidden ["scrape.py"; "people.csv"]
                world_with_files)) = files world_with_files
  /\ traffic (snd (main env_forbidden ["scrape.py"; "people.csv"]
                     world_with_files))
     = ["https://sjsu.edu/robots.txt"].
Proof.
  destruct (main_without_permission env_forbidden
              ["scrape.py"; "people.csv"] world_with_files)
    as (F & T & _); [reflexivity | reflexivity | discriminate |].
  split; [exact F | exact T].
Defined.



(* ================================================================= *)
(** ** The fields of a row *)

Lemma split_on_parts sep : forall s t,
  In t (split_on sep s) -> contains_char sep t = false.
Proof.
  induction s as [|c s IH]; simpl; intros t H.
  - destruct H as [<-|[]]; reflexivity.
  - destruct (Ascii.eqb c sep) eqn:E.
    + destruct H as [<-|H]; [reflexivity | now apply IH].
    + destruct (split_on sep s) as [|p ps] eqn:S.
      * destruct H as [<-|[]]; simpl; now rewrite E.
      * destruct H as [<-|H].
        -- simpl; rewrite E; simpl. apply IH; now left.
        -- apply IH; now right.
Qed.

Lemma nth_in_or_default (l : list string) i :
  In (nth i l "") l \/ nth i l "" = "".
Proof.
  destruct (Nat.lt_ge_cases i (List.length l)) as [H|H].
  - left; now apply nth_In.
  - right; now apply nth_overflow.
Qed.

(** A token of a text is a part of it. *)
Lemma tokenized_part s toks :
  tokenized s toks ->
  forall t, In t toks ->
            exists a b, s = a ++ t ++ b
                        /\ t <> "" /\ all non_space t = true.
Proof.
  induction 1 as [ws A|ws t0 s toks A N B S T IH]; intros t I; [destruct I|].
  destruct I as [<-|I].
  - exists ws, s; auto.
  - destruct (IH t I) as (a & b & -> & P).
    exists (ws ++ t0 ++ a), b. rewrite !app_assoc. auto.
Qed.

Lemma last_in (l : list string) d : l <> [] -> In (last l d) l.
Proof.
  induction l as [|x l IH]; [congruence|]; intros _.
  destruct l as [|y l]; [now left|].
  right. apply IH; discriminate.
Qed.

Lemma contains_char_part c a t b :
  contains_char c (a ++ t ++ b) = false -> contains_char c t = false.
Proof.
  rewrite !contains_char_app. intros H.
  apply orb_false_elim in H; destruct H as [_ H].
  now apply orb_false_elim in H.
Qed.

Lemma extract_name_no_comma soup last_name first_name :
  extract_name soup = NamePair last_name first_name ->
  contains_char "," last_name = false
  /\ contains_char "," first_name = false.
Proof.
  unfold extract_name.
  destruct (find_all "h1" soup) as [|h others]; [discriminate|].
  set (name := strip (get_text h)).
  destruct (contains_char "," name) eqn:C.
  - intros H; inversion H; subst; clear H. split.
    + destruct (nth_in_or_default (split_on "," name) 0) as [I| ->];
        [now apply (split_on_parts _ _ _ I) | reflexivity].
    + destruct (nth_in_or_default (split_on "," name) 1) as [I| ->];
        [now apply (split_on_parts _ _ _ I) | reflexivity].
  - destruct (1 <? List.length (split_ws name)) eqn:L; [|discriminate].
    intros H; inversion H; subst; clear H.
    apply Nat.ltb_lt in L.
    pose proof (split_ws_tokenized name) as T.
    assert (Il : In (last (split_ws name) "") (split_ws name))
      by (apply last_in; destruct (split_ws name); simpl in *;
          [lia | discriminate]).
    assert (If : In (nth 0 (split_ws name) "") (split_ws name))
      by (apply nth_In; lia).
    destruct (tokenized_part _ _ T _ Il) as (a & b & E & _).
    destruct (tokenized_part _ _ T _ If) as (a' & b' & E' & _).
    split.
    + apply (contains_char_part "," a _ b). now rewrite <- E.
    + apply (contains_char_part "," a' _ b'). now rewrite <- E'.
Qed.

(** The two names that the Name Extractor returns never contain a comma;
    when the heading has no comma they are tokens: not empty and without
    white space. *)
Theorem extract_name_fields : forall soup last_name first_name,
  extract_name soup = NamePair last_name first_name ->
  contains_char "," last_name = false
  /\ contains_char "," first_name = false
  /\ (forall h others,
        find_all "h1" soup = h :: others ->
        contains_char "," (strip (get_text h)) = false ->
        last_name <> "" /\ first_name <> ""
        /\ all non_space last_name = true
        /\ all non_space first_name = true).
Proof.
  intros soup last_name first_name N.
  destruct (extract_name_no_comma soup _ _ N) as (Cl & Cf).
  split; [exact Cl | split; [exact Cf|]].
  intros h others F C. unfold extract_name in N. rewrite F, C in N.
  destruct (1 <? List.length (split_ws (strip (get_text h)))) eqn:L;
    [|discriminate].
  inversion N; subst; clear N. apply Nat.ltb_lt in L.
  pose proof (split_ws_tokenized (strip (get_text h))) as T.
  set (toks := split_ws (strip (get_text h))) in *.
  assert (Il : In (last toks "") toks)
    by (apply last_in; destruct toks; simpl in *; [lia | discriminate]).
  assert (If : In (nth 0 toks "") toks) by (apply nth_In; lia).
  destruct (tokenized_part _ _ T _ Il) as (a & b & _ & Nl & Al).
  destruct (tokenized_part _ _ T _ If) as (a' & b' & _ & Nf & Af).
  auto.
Qed.

Lemma extract_name_fields_witness :
  contains_char "," "Smith" = false
  /\ contains_char "," "Jane" = false
  /\ "Smith" <> "" /\ "Jane" <> ""
  /\ all non_space "Smith" = true
  /\ all non_space "Jane" = true.
Proof.
  destruct (extract_name_fields page_three_tokens "Smith" "Jane" eq_refl)
    as (A & B & C).
  destruct (C (h1 "Jane Middle Smith") [] eq_refl eq_refl)
    as (D & E & F & G).
  repeat split; assumption.
Defined.

Lemma split_on_not_nil sep s : split_on sep s <> [].
Proof.
  destruct s as [|c s]; simpl; [discriminate|].
  destruct (Ascii.eqb c sep); [discriminate|].
  destruct (split_on sep s); discriminate.
Qed.

(** [(x + sep + y).split(sep) == x.split(sep) + y.split(sep)] *)
Lemma split_on_app sep : forall x y,
  split_on sep (x ++ String sep y)
  = (split_on sep x ++ split_on sep y)%list.
Proof.
  induction x as [|c x IH]; intros y; simpl.
  - now rewrite Ascii.eqb_refl.
  - destruct (Ascii.eqb c sep); [now rewrite IH|].
    rewrite IH. pose proof (split_on_not_nil sep x).
    destruct (split_on sep x); [congruence | reflexivity].
Qed.

Lemma split_on_length_pos sep s : 1 <= List.length (split_on sep s).
Proof.
  pose proof (split_on_not_nil sep s).
  destruct (split_on sep s); simpl; [congruence | lia].
Qed.

Lemma strip_keeps_free c s :
  contains_char c s = false -> contains_char c (strip s) = false.
Proof.
  apply (stripped_of_contains is_space), strip_by_spec.
Qed.

Lemma extract_education_free soup education :
  extract_education soup = Ret education ->
  contains_char "," education = false.
Proof.
  unfold extract_education.
  destruct (find_from education_heading (elements soup)) as [[h f]|];
    [|intros H; inversion H; reflexivity].
  destruct (find_next f) as [[n f']|]; [|discriminate].
  destruct (String.eqb (tag_name n) "ul").
  - destruct (find_next f') as [[e f'']|]; [|discriminate].
    intros H; inversion H. apply normalize_normalized.
  - intros H; inversion H. apply normalize_normalized.
Qed.

(** A row read back: splitting a row of [get_info] at its commas gives at
    least five columns; the first two are the trimmed last name and
    first name, and the last one is the trimmed education blurb. *)
Theorem get_info_row_columns : forall env url w row,
  fst (get_info env url w) = Ret (Some row) ->
  exists soup last_name first_name education,
    urlopen env url = Fetched soup
    /\ extract_name soup = NamePair last_name first_name
    /\ extract_education soup = Ret education
    /\ nth 0 (split_on "," row) "" = strip last_name
    /\ nth 1 (split_on "," row) "" = strip first_name
    /\ last (split_on "," row) "" = strip education
    /\ 5 <= List.length (split_on "," row).
Proof.
  intros env url w row. rewrite get_info_world. cbn [fst].
  unfold link_row. destruct (urlopen env url) as [soup|msg|msg];
    try discriminate.
  unfold page_row.
  destruct (extract_name soup) as [last_name first_name| |] eqn:N;
    try discriminate.
  destruct (extract_phone soup) as [phone|e]; [|discriminate].
  destruct (extract_education soup) as [education|e] eqn:Ed; [|discriminate].
  intros H; inversion H; subst row; clear H.
  exists soup, last_name, first_name, education.
  destruct (extract_name_no_comma soup _ _ N) as (Cl & Cf).
  apply strip_keeps_free in Cl, Cf.
  pose proof (strip_keeps_free _ _ (extract_education_free _ _ Ed)) as Ce.
  repeat split; auto.
  - change ("," ++ ?x) with (String "," x).
    now rewrite (split_on_sep "," _ _ Cl).
  - change (strip last_name ++ "," ++ strip first_name ++ "," ++ ?x)
      with (strip last_name ++ String "," (strip first_name ++ String "," x)).
    now rewrite (split_on_sep "," _ _ Cl), (split_on_sep "," _ _ Cf).
  - set (e := strip education) in *.
    set (a := strip last_name). set (b := strip first_name).
    set (c := strip (extract_email soup)). set (d := strip phone).
    change (a ++ "," ++ b ++ "," ++ c ++ "," ++ d ++ "," ++ e)
      with (a ++ String "," (b ++ String "," (c ++ String ","
              (d ++ String "," e)))).
    rewrite !split_on_app, (split_on_none "," e Ce).
    rewrite !List.app_assoc. apply List.last_last.
  - set (e := strip education) in *.
    set (a := strip last_name). set (b := strip first_name).
    set (c := strip (extract_email soup)). set (d := strip phone).
    change (a ++ "," ++ b ++ "," ++ c ++ "," ++ d ++ "," ++ e)
      with (a ++ String "," (b ++ String "," (c ++ String ","
              (d ++ String "," e)))).
    rewrite !split_on_app, !List.length_app.
    pose proof (split_on_length_pos "," a).
    pose proof (split_on_length_pos "," b).
    pose proof (split_on_length_pos "," c).
    pose proof (split_on_length_pos "," d).
    pose proof (split_on_length_pos "," e). lia.
Qed.

Lemma get_info_row_columns_witness :
  exists soup last_name first_name education,
    urlopen (env_site page_jane) john_url = Fetched soup
    /\ extract_name soup = NamePair last_name first_name
    /\ extract_education soup = Ret education
    /\ nth 0 (split_on "," "Roe,John,,(408) 924-1000,") "" = strip last_name
    /\ nth 1 (split_on "," "Roe,John,,(408) 924-1000,") "" = strip first_name
    /\ last (split_on "," "Roe,John,,(408) 924-1000,") "" = strip education
    /\ 5 <= List.length (split_on "," "Roe,John,,(408) 924-1000,").
Proof.
  apply (get_info_row_columns (env_site page_jane) john_url empty_world
           "Roe,John,,(408) 924-1000,").
  reflexivity.
Defined.

(* ================================================================= *)
(** ** What the extractors return and when they raise *)

Section FoundString.

Variable r : regex.
Variable P : string -> Prop.
Hypothesis r_P : forall s, search r s <> None <-> P s.

Lemma find_string_some soup s following :
  find_string r soup = Some (s, following) ->
  first_text P soup s following.
Proof.
  unfold find_string.
  destruct (find_from (text_matching r) (elements soup)) as [[n f]|] eqn:F;
    [|discriminate].
  intros H; inversion H; subst; clear H.
  apply find_from_first in F. destruct F as (before & E & T & B).
  apply (text_matching_iff r P r_P) in T. destruct T as (t & -> & Pt).
  exists before; repeat split; auto.
  intros u I Pu.
  rewrite forallb_forall in B. specialize (B _ I).
  apply negb_true_iff in B.
  assert (T : text_matching r (Text u) = true)
    by (apply (text_matching_iff r P r_P); eauto).
  congruence.
Qed.

Lemma find_string_none_all soup :
  find_string r soup = None ->
  forall s, text_node soup s -> ~ P s.
Proof.
  unfold find_string, text_node.
  destruct (find_from (text_matching r) (elements soup)) as [[n f]|] eqn:F;
    [discriminate|]. intros _ s I Ps.
  rewrite find_from_none in F. specialize (F _ I).
  assert (T : text_matching r (Text s) = true)
    by (apply (text_matching_iff r P r_P); eauto).
  congruence.
Qed.

End FoundString.

Lemma all_class_contains p c s :
  all p s = true -> contains_char c s = true -> p c = true.
Proof.
  induction s as [|d s IH]; simpl; [discriminate|].
  intros A C. apply andb_prop in A; destruct A as [Pd A].
  apply orb_prop in C; destruct C as [E|C]; auto.
  apply Ascii.eqb_eq in E; now subst.
Qed.

Lemma stripped_of_keeps p raw out c :
  stripped_of p raw out -> p c = false ->
  contains_char c raw = true -> contains_char c out = true.
Proof.
  intros (l & r & -> & Al & Ar & _) Pc C.
  rewrite !contains_char_app in C.
  apply orb_prop in C; destruct C as [C|C];
    [pose proof (all_class_contains _ _ _ Al C); congruence|].
  apply orb_prop in C; destruct C as [C|C]; [assumption|].
  pose proof (all_class_contains _ _ _ Ar C); congruence.
Qed.

Lemma stripped_of_all p q raw out :
  stripped_of p raw out -> all q raw = true -> all q out = true.
Proof.
  intros (l & r & -> & _) A. rewrite !all_app in A.
  apply andb_prop in A; destruct A as [_ A].
  now apply andb_prop in A.
Qed.

Lemma email_shape_chars m :
  email_shape m ->
  contains_char "@" m = true /\ all non_space m = true.
Proof.
  intros (u & v & w & -> & _ & _ & _ & Au & Av & Aw). split.
  - rewrite contains_char_app. simpl. apply orb_true_r.
  - rewrite all_app; simpl. rewrite all_app; simpl.
    now rewrite Au, Av, Aw.
Qed.

(** The Email Extractor returns the empty string exactly when the shape
    of an address occurs in no text node; any other result contains an
    at sign and no white space. *)
Theorem extract_email_result : forall soup,
  (extract_email soup = ""
   <-> forall s, text_node soup s -> ~ has email_shape s)
  /\ (extract_email soup <> "" ->
      contains_char "@" (extract_email soup) = true
      /\ all non_space (extract_email soup) = true).
Proof.
  intros soup.
  destruct (find_string email_pattern soup) as [[s f]|] eqn:F.
  - pose proof (find_string_some _ _ email_search_iff _ _ _ F)
      as (before & E & H & B).
    assert (R : exists m, email_shape m
                          /\ extract_email soup = strip_commas m).
    { unfold extract_email; rewrite F.
      rewrite (is_empty_false _ (has_not_empty _ _ H email_shape_not_empty)).
      simpl negb; cbv iota.
      pose proof H as H'. apply email_search_iff in H'.
      destruct (search email_pattern s) as [m|] eqn:Sm; [|congruence].
      destruct (search_some_shape _ _ email_pattern_shape _ _ Sm)
        as (pre & post & _ & S & _).
      exists m; auto. }
    destruct R as (m & S & ->).
    destruct (email_shape_chars m S) as (At & Ns).
    pose proof (strip_by_spec (Ascii.eqb ",") m) as St.
    fold (strip_commas m) in St.
    assert (C : contains_char "@" (strip_commas m) = true)
      by (apply (stripped_of_keeps _ _ _ _ St); auto).
    split; [split|].
    + intros Z; rewrite Z in C; discriminate.
    + intros A; exfalso. apply (A s); [|exact H].
      unfold text_node; rewrite E. apply in_or_app; right; now left.
    + intros _; split; [exact C|].
      apply (stripped_of_all _ _ _ _ St Ns).
  - pose proof (find_string_none_all _ _ email_search_iff _ F) as A.
    unfold extract_email; rewrite F. split; [split; auto|]. congruence.
Qed.

Lemma extract_email_result_witness :
  contains_char "@" (extract_email page_contact) = true
  /\ all non_space (extract_email page_contact) = true.
Proof.
  apply (proj2 (extract_email_result page_contact)). discriminate.
Defined.

Lemma count_class_app p a b :
  count_class p (a ++ b) = count_class p a + count_class p b.
Proof. induction a; simpl; [reflexivity | rewrite IHa; lia]. Qed.

Lemma digits_count n d :
  digits n d -> count_class is_digit d = n /\ String.length d = n.
Proof.
  intros (L & A). split; [|exact L]. subst n.
  induction d as [|c d IH]; simpl in *; [reflexivity|].
  apply andb_prop in A; destruct A as [-> A]. now rewrite IH.
Qed.

Lemma opt_char_count p s :
  (forall c, p c = true -> is_digit c = false) ->
  opt_char p s ->
  count_class is_digit s = 0 /\ String.length s <= 1.
Proof.
  intros N [->|(c & -> & Pc)]; simpl; [auto|].
  rewrite (N c Pc); auto.
Qed.

Lemma literal_not_digit a :
  is_digit a = false -> forall c, Ascii.eqb a c = true -> is_digit c = false.
Proof. intros D c E. apply Ascii.eqb_eq in E. now subst. Qed.

Lemma separator_not_digit c :
  range " " "." c = true -> is_digit c = false.
Proof.
  unfold range, is_digit. intros H.
  apply andb_prop in H; destruct H as [_ H]. apply Nat.leb_le in H.
  change (nat_of_ascii ".") with 46 in H.
  apply andb_false_iff; left. apply Nat.leb_gt. lia.
Qed.

(** A text of the shape of the pattern has exactly ten digits and at
    most seven other characters. *)
Lemma phone_shape_digits m :
  phone_shape m ->
  count_class is_digit m = 10
  /\ 10 <= String.length m /\ String.length m <= 17.
Proof.
  intros (lp & area & rp & sep1 & slash & exch & sp1 & sep2 & sp2 & line
          & -> & A1 & A2 & A3 & A4 & A5 & A6 & A7 & A8 & A9 & A10).
  apply (opt_char_count _ _ (literal_not_digit "(" eq_refl)) in A1.
  apply digits_count in A2.
  apply (opt_char_count _ _ (literal_not_digit ")" eq_refl)) in A3.
  apply (opt_char_count _ _ separator_not_digit) in A4.
  apply (opt_char_count _ _ (literal_not_digit "/" eq_refl)) in A5.
  apply digits_count in A6.
  apply (opt_char_count _ _ (literal_not_digit " " eq_refl)) in A7.
  apply (opt_char_count _ _ separator_not_digit) in A8.
  apply (opt_char_count _ _ (literal_not_digit " " eq_refl)) in A9.
  apply digits_count in A10.
  rewrite !count_class_app, !length_app. lia.
Qed.

(** What the Phone Extractor returns is the empty string or a text of
    the shape of the pattern, with exactly ten digits and at most
    seventeen characters. *)
Theorem extract_phone_result : forall soup m,
  extract_phone soup = Ret m ->
  m = ""
  \/ (phone_shape m
      /\ count_class is_digit m = 10
      /\ 10 <= String.length m /\ String.length m <= 17).
Proof.
  intros soup m. unfold extract_phone.
  destruct (find_string phone_label soup) as [[label f]|];
    [|intros H; inversion H; now left].
  destruct (negb (is_empty label)); [|intros H; inversion H; now left].
  destruct (find_next f) as [[next f']|]; [|discriminate].
  destruct (search phone_pattern (label ++ get_text next)) as [x|] eqn:S;
    intros H; inversion H; subst; [right | now left].
  destruct (search_some_shape _ _ phone_pattern_shape _ _ S)
    as (pre & post & _ & P & _).
  split; [exact P | now apply phone_shape_digits].
Qed.

Lemma extract_phone_result_witness :
  "(408) 924-1000" = ""
  \/ (phone_shape "(408) 924-1000"
      /\ count_class is_digit "(408) 924-1000" = 10
      /\ 10 <= String.length "(408) 924-1000"
      /\ String.length "(408) 924-1000" <= 17).
Proof.
  apply (extract_phone_result page_phone "(408) 924-1000"). reflexivity.
Defined.

(** The Phone Extractor raises exactly when a label is found and no tag
    follows it in the document; the exception is the [AttributeError] of
    [None.get_text()]. *)
Theorem extract_phone_raises_iff : forall soup e,
  extract_phone soup = Raise e
  <-> e = AttributeError
      /\ exists label following,
           first_text is_phone_label soup label following
           /\ forall n, In n following -> is_tag n = false.
Proof.
  intros soup e; split.
  - unfold extract_phone.
    destruct (find_string phone_label soup) as [[label f]|] eqn:F;
      [|discriminate].
    destruct (negb (is_empty label)); [|discriminate].
    unfold find_next.
    destruct (find_from is_tag f) as [[next f']|] eqn:N.
    + destruct (search phone_pattern (label ++ get_text next)); discriminate.
    + intros H; inversion H. split; [reflexivity|].
      exists label, f. split.
      * apply (find_string_some _ _ phone_label_search _ _ _ F).
      * now apply find_from_none.
  - intros (-> & label & following & F & T).
    apply (extract_phone_label_last _ _ _ F T).
Qed.

Lemma extract_phone_raises_iff_witness :
  extract_phone page_jane_label_last = Raise AttributeError.
Proof.
  apply (proj2 (extract_phone_raises_iff page_jane_label_last
                  AttributeError)).
  split; [reflexivity|]. exists "Phone", []. split.
  - exists [h1 "Jane Doe"; Text "Jane Doe"; par "Phone"].
    split; [reflexivity | split].
    + exists "Phone"; split; [now left | left; reflexivity].
    + intros t [E|[E|[E|[]]]]; inversion E; subst t.
      intros H; apply phone_label_search in H; apply H; reflexivity.
  - intros n [].
Defined.

(** The Education Extractor raises exactly when the heading is found and
    either no tag follows it, or the tag that follows is a list and no
    tag follows the beginning of the list. *)
Theorem extract_education_raises_iff : forall soup e,
  extract_education soup = Raise e
  <-> e = AttributeError
      /\ exists h following,
           first_where education_heading (elements soup) h following
           /\ ((forall n, In n following -> is_tag n = false)
               \/ exists ul following',
                    next_tag following ul following'
                    /\ tag_name ul = "ul"
                    /\ forall n, In n following' -> is_tag n = false).
Proof.
  intros soup e; unfold extract_education, find_next; split.
  - destruct (find_from education_heading (elements soup)) as [[h f]|] eqn:H;
      [|discriminate].
    apply find_from_first in H.
    destruct (find_from is_tag f) as [[next f']|] eqn:N.
    + destruct (String.eqb (tag_name next) "ul") eqn:U; [|discriminate].
      destruct (find_from is_tag f') as [[x f'']|] eqn:N'; [discriminate|].
      intros E; inversion E. split; [reflexivity|].
      exists h, f; split; [exact H | right].
      exists next, f'. repeat split.
      * now apply find_from_first.
      * now apply String.eqb_eq.
      * now apply find_from_none.
    + intros E; inversion E. split; [reflexivity|].
      exists h, f; split; [exact H | left]. now apply find_from_none.
  - intros (-> & h & f & H & [T|(ul & f' & N & U & T)]).
    + apply find_from_first in H. rewrite H.
      apply find_from_none in T. now rewrite T.
    + apply find_from_first in H. rewrite H.
      apply find_from_first in N. rewrite N.
      apply String.eqb_eq in U. rewrite U.
      apply find_from_none in T. now rewrite T.
Qed.

Lemma extract_education_raises_iff_witness :
  extract_education page_education_last = Raise AttributeError.
Proof.
  apply (proj2 (extract_education_raises_iff page_education_last
                  AttributeError)).
  split; [reflexivity|].
  exists (h2 "Education"), [Text "Education"]. split.
  - exists [h1 "Jane Doe"; Text "Jane Doe"]. repeat split; reflexivity.
  - left. intros n [<-|[]]; reflexivity.
Defined.

Lemma tag_string_get_text n : forall s,
  tag_string n = Some s -> get_text n = s.
Proof.
  induction n as [t|name attrs cs IH] using node_induction; intros s H.
  - simpl in H. now inversion H.
  - destruct cs as [|c [|c' cs]]; try discriminate.
    inversion IH as [|? ? Hc _]; subst.
    simpl in H. simpl. rewrite (Hc s H). apply app_nil_r.
Qed.

(** When the word of the heading is wrapped in a tag of its own, as in
    [<h2><b>Education</b></h2>], that tag is the next element and the
    Education Extractor returns the word "Education" itself, whatever
    follows the heading. *)
Theorem extract_education_wrapped_heading :
  forall soup attrs name attrs' cs following,
    first_where education_heading (elements soup)
      (Tag "h2" attrs [Tag name attrs' cs]) following ->
    name <> "ul" ->
    extract_education soup = Ret "Education".
Proof.
  intros soup attrs name attrs' cs following H N.
  pose proof H as (before & E & Hh & _).
  destruct (elements_following _ _ _ _ E) as (after & ->).
  apply find_from_first in H. unfold extract_education; rewrite H.
  unfold find_next. rewrite descendants_tag.
  cbn [walk List.app find_from is_tag tag_name].
  apply String.eqb_neq in N; rewrite N.
  unfold education_heading in Hh.
  apply andb_prop in Hh; destruct Hh as [_ Hh].
  change (tag_string (Tag "h2" attrs [Tag name attrs' cs]))
    with (tag_string (Tag name attrs' cs)) in Hh.
  destruct (tag_string (Tag name attrs' cs)) as [s|] eqn:T;
    [|discriminate].
  apply String.eqb_eq in Hh; subst s.
  now rewrite (tag_string_get_text _ _ T).
Qed.

Lemma extract_education_wrapped_heading_witness :
  extract_education page_education_bold = Ret "Education".
Proof.
  apply (extract_education_wrapped_heading page_education_bold
           [] "b" [] [Text "Education"]
           [Tag "b" [] [Text "Education"]; Text "Education";
            par "Ph.D., Stanford, 2005"; Text "Ph.D., Stanford, 2005"]).
  - exists []; repeat split; reflexivity.
  - discriminate.
Defined.

(* ================================================================= *)
(** ** The links of the index and the pages behind them *)

Lemma people_search_iff href :
  search people_pattern href <> None <-> people_href href.
Proof.
  unfold people_pattern, people_href.
  apply (search_shape_iff (word_i "/people/")
           (fun m => lower m = "/people/")).
  intros bol m rest. apply (matches_word_i "/people/").
Qed.

(** The links collected from a fetched index are exactly the references
    of its anchors that contain "/people/" in any letter case, each
    joined to the base address. *)
Theorem get_people_links_collects : forall env url w soup,
  urlopen env url = Fetched soup ->
  exists links,
    fst (get_people_links env url w) = Ret (Some links)
    /\ forall link,
         In link links
         <-> exists attrs cs href,
               In (Tag "a" attrs cs) (elements soup)
               /\ lookup "href" attrs = Some href
               /\ people_href href
               /\ link = urljoin env "https://sjsu.edu/" href.
Proof.
  intros env url w soup F.
  rewrite (get_people_links_fetched _ _ _ _ F).
  exists (collected_links env soup); split; [reflexivity|].
  intros link. unfold collected_links. rewrite in_map_iff. split.
  - intros (n & <- & I). apply filter_In in I. destruct I as (I & A).
    apply andb_prop in A. destruct A as (Na & H).
    destruct n as [|name attrs cs]; [discriminate|].
    simpl in Na. apply String.eqb_eq in Na; subst name.
    unfold href_matches in H. simpl in *.
    destruct (lookup "href" attrs) as [href|] eqn:L; [|discriminate].
    exists attrs, cs, href.
    split; [exact I | split; [exact L | split; [|reflexivity]]].
    apply people_search_iff.
    destruct (search people_pattern href); discriminate.
  - intros (attrs & cs & href & I & L & P & ->).
    exists (Tag "a" attrs cs). simpl. rewrite L. split; [reflexivity|].
    apply filter_In. split; [exact I|].
    unfold href_matches; simpl. rewrite L.
    apply people_search_iff in P.
    destruct (search people_pattern href); [reflexivity | congruence].
Qed.

Lemma get_people_links_collects_witness :
  exists links,
    fst (get_people_links (env_site page_jane) index_url empty_world)
    = Ret (Some links)
    /\ In jane_url links.
Proof.
  destruct (get_people_links_collects (env_site page_jane) index_url
              empty_world index_page eq_refl) as (links & E & H).
  exists links; split; [exact E|]. apply H.
  exists [("href", "/people/jane.doe/")], [Text "Jane Doe"],
    "/people/jane.doe/".
  split; [|split; [reflexivity | split; [|reflexivity]]].
  - simpl; tauto.
  - apply people_search_iff; discriminate.
Defined.





(* ================================================================= *)
(** ** The extension of the output path *)

Lemma rfind_none c s : rfind c s = None -> contains_char c s = false.
Proof.
  induction s as [|d s IH]; simpl; [reflexivity|].
  destruct (rfind c s); [discriminate|].
  destruct (Ascii.eqb d c); [discriminate|]. auto.
Qed.

Lemma rfind_some c : forall s i,
  rfind c s = Some i ->
  exists a b, s = a ++ String c b /\ String.length a = i
              /\ contains_char c b = false.
Proof.
  induction s as [|d s IH]; simpl; intros i H; [discriminate|].
  destruct (rfind c s) as [j|] eqn:R.
  - inversion H; subst i.
    destruct (IH j eq_refl) as (a & b & -> & L & C).
    exists (String d a), b; simpl; auto.
  - destruct (Ascii.eqb d c) eqn:E; [|discriminate].
    inversion H; subst i. apply Ascii.eqb_eq in E; subst d.
    exists "", s; simpl; repeat split; auto. now apply rfind_none.
Qed.

Lemma drop_app a x : drop (String.length a) (a ++ x) = x.
Proof. induction a; simpl; [now destruct x | assumption]. Qed.

Lemma app_split_le : forall a x a' y,
  a ++ x = a' ++ y -> String.length a' <= String.length a ->
  exists z, a = a' ++ z /\ y = z ++ x.
Proof.
  induction a as [|c a IH]; intros x a' y E L.
  - destruct a'; [|simpl in L; lia]. exists ""; auto.
  - destruct a' as [|c' a']; simpl in *.
    + exists (String c a); auto.
    + inversion E; subst c'.
      destruct (IH x a' y H1) as (z & -> & ->); [lia|]. exists z; auto.
Qed.

(** The extension that [main] compares with ".csv" is a suffix of the
    path; it is empty, or it begins with the last dot of the path,
    contains no other dot and no slash, and something precedes it. *)
Theorem extension_of_path : forall p,
  exists root,
    p = root ++ extension p
    /\ (extension p = ""
        \/ exists e,
             extension p = String "." e
             /\ contains_char "." e = false
             /\ contains_char "/" e = false
             /\ root <> "").
Proof.
  intros p. unfold extension.
  destruct (rfind "." p) as [dotIndex|] eqn:D;
    [|exists p; rewrite app_nil_r; auto].
  destruct (rfind_some _ _ _ D) as (a & b & E & La & Cb).
  set (filenameIndex := match rfind "/" p with
                        | Some i => S i
                        | None => 0
                        end).
  destruct ((filenameIndex <=? dotIndex)
            && existsb _ (seq filenameIndex (dotIndex - filenameIndex)))
    eqn:C; [|exists p; rewrite app_nil_r; auto].
  apply andb_prop in C. destruct C as (Le & Ex).
  apply Nat.leb_le in Le.
  assert (Dp : drop dotIndex p = String "." b)
    by (rewrite E, <- La; apply drop_app).
  exists a. rewrite Dp.
  split; [exact E | right]. exists b. repeat split; auto.
  - subst filenameIndex.
    destruct (rfind "/" p) as [k|] eqn:S.
    + destruct (rfind_some _ _ _ S) as (a' & b' & E' & La' & Cb').
      rewrite E in E'.
      change (a' ++ String "/" b') with (a' ++ String "/" "" ++ b') in E'.
      rewrite <- app_assoc in E'.
      destruct (app_split_le a (String "." b) (a' ++ String "/" "") b' E')
        as (z & _ & Eb).
      * rewrite length_app; simpl. lia.
      * rewrite Eb in Cb'. rewrite contains_char_app in Cb'.
        apply orb_false_elim in Cb'. destruct Cb' as (_ & Cb').
        simpl in Cb'. exact Cb'.
    + apply rfind_none in S. rewrite E in S.
      rewrite contains_char_app in S. apply orb_false_elim in S.
      destruct S as (_ & S). simpl in S. exact S.
  - intros ->. simpl in La. subst dotIndex.
    replace (0 - filenameIndex) with 0 in Ex by lia.
    simpl in Ex. discriminate.
Qed.
